(** * CoreUpdateCLI: the live process runner, the winget row parsers and the
    health-check progress phases.

    A shallow embedding of [part2_helpers.py] ([run_with_live_output],
    [winget_list_upgrades], [ensure_pswindowsupdate_installed],
    [_ps_get_updates]) and of [part3_health.py] ([_stream_winget_upgrades],
    [_scan_windows_updates_quiet], [health_check]), followed by the
    properties of the specification that concern them.

    Conventions of the embedding.
    - A Python [str] is the list of its code points ([N]); [lit] turns an
      ASCII literal of the source into such a list.
    - What the operating system answers (whether the executable is found, the
      text a process prints, its return code, whether [communicate] times
      out, what [json.loads] makes of an output) is an explicit input of
      each function.
    - The [rich] objects are state: the list [logs], the lines last put on
      the log panel, and the [completed] value of the progress task.  The
      values written to [completed] are also recorded in call order, so that
      statements about a whole run can be made.
    - Progress values are Python floats in the source; they are exact
      rationals ([Q]) here.
    - [console.print] and the log file written by [log] are not modelled. *)

From Stdlib Require Import QArith Qminmax Qround Qabs Sorted.
From stdpp Require Import base list strings gmap pretty.

Local Open Scope N_scope.

(** ** Python strings *)

Module Py.

Definition char := N.
Definition str := list char.

(** An ASCII literal of the source as a [str]. *)
Fixpoint lit (s : string) : str :=
  match s with
  | EmptyString => []
  | String a s' => Ascii.N_of_ascii a :: lit s'
  end.

(** [str.isspace] for one character; it is also the class [\s] of [re] on
    [str] patterns and the set removed by [strip()] / [rstrip()]. *)
Definition isspace (c : char) : bool :=
  ((9 <=? c) && (c <=? 13)) || ((28 <=? c) && (c <=? 32))
  || (c =? 133) || (c =? 160) || (c =? 5760)
  || ((8192 <=? c) && (c <=? 8202))
  || (c =? 8232) || (c =? 8233) || (c =? 8239) || (c =? 8287) || (c =? 12288).

(** The line boundaries of [str.splitlines] other than carriage return,
    which is handled apart because of the pair CR LF. *)
Definition is_linebreak (c : char) : bool :=
  ((10 <=? c) && (c <=? 12)) || ((28 <=? c) && (c <=? 30))
  || (c =? 133) || (c =? 8232) || (c =? 8233).

Fixpoint lstrip (s : str) : str :=
  match s with
  | c :: s' => if isspace c then lstrip s' else s
  | [] => []
  end.

Definition rstrip (s : str) : str := rev (lstrip (rev s)).

Definition strip (s : str) : str := rstrip (lstrip s).

(** [splitlines_from cur s]: [cur] holds, reversed, the characters of the
    line being read. *)
Fixpoint splitlines_from (cur : str) (s : str) : list str :=
  match s with
  | [] => match cur with [] => [] | _ => [rev cur] end
  | c :: s' =>
      if c =? 13 then
        match s' with
        | c' :: s'' =>
            if c' =? 10 then rev cur :: splitlines_from [] s''
            else rev cur :: splitlines_from [] s'
        | [] => [rev cur]
        end
      else if is_linebreak c then rev cur :: splitlines_from [] s'
      else splitlines_from (c :: cur) s'
  end.

Definition splitlines (s : str) : list str := splitlines_from [] s.

Fixpoint startswith (p s : str) : bool :=
  match p, s with
  | [], _ => true
  | a :: p', b :: s' => (a =? b) && startswith p' s'
  | _ :: _, [] => false
  end.

(** [needle in hay]. *)
Fixpoint contains (needle hay : str) : bool :=
  startswith needle hay ||
  match hay with
  | [] => false
  | _ :: hay' => contains needle hay'
  end.

(** [s.lower().startswith("no ")].  The only characters whose lower case
    begins with [n], [o] and the space are [N]/[n], [O]/[o] and the space,
    each mapped to one character, so the test reads the first three
    characters of [s]. *)
Definition lower_startswith_no (s : str) : bool :=
  match s with
  | a :: b :: c :: _ =>
      ((a =? 78) || (a =? 110)) && ((b =? 79) || (b =? 111)) && (c =? 32)
  | _ => false
  end.

(** [re.split(r"\s{2,}", s)].  [cur] is the field being read and [ws] the
    run of white space seen after it, both reversed.  A run of two or more
    closes the field; a single white space stays inside it. *)
Fixpoint re_split_from (cur ws : str) (s : str) : list str :=
  match s with
  | [] =>
      match ws with
      | _ :: _ :: _ => [rev cur; []]
      | _ => [rev (ws ++ cur)]
      end
  | c :: s' =>
      if isspace c then re_split_from cur (c :: ws) s'
      else
        match ws with
        | _ :: _ :: _ => rev cur :: re_split_from [c] [] s'
        | _ => re_split_from (c :: ws ++ cur) [] s'
        end
  end.

Definition re_split_ws2 (s : str) : list str := re_split_from [] [] s.

(** [sep.join(l)]. *)
Fixpoint join (sep : str) (l : list str) : str :=
  match l with
  | [] => []
  | [x] => x
  | x :: l' => x ++ sep ++ join sep l'
  end.

(** [l[-n:]] for a positive literal [n]: the last [n] elements, the whole
    list when it is shorter. *)
Definition last_n {A} (n : nat) (l : list A) : list A :=
  drop (length l - n) l.

(** The truth value of a [str]. *)
Definition nonempty (s : str) : bool :=
  match s with [] => false | _ => true end.

End Py.

Import Py.

(** ** Values decoded by [json.loads]

    The decoder itself is Python's; its result is an input of the functions
    below.  Numbers are integers here, and a decoded object is a finite map
    from keys to values, as a Python [dict] is. *)

#[local] Set Warnings "-register-all".

Inductive json :=
  | JNull
  | JBool (b : bool)
  | JInt (z : Z)
  | JStr (s : str)
  | JArr (l : list json)
  | JObj (m : gmap str json).

(** The truth value Python gives a decoded value ([if v], [v or w]). *)
Definition truthy (v : json) : bool :=
  match v with
  | JNull => false
  | JBool b => b
  | JInt z => negb (z =? 0)%Z
  | JStr s => nonempty s
  | JArr l => match l with [] => false | _ => true end
  | JObj m => match map_to_list m with [] => false | _ => true end
  end.

(** [a or b]. *)
Definition py_or (a b : json) : json := if truthy a then a else b.

(** [d.get(k)] and [d.get(k, dflt)]. *)
Definition dict_get (m : gmap str json) (k : string) : json :=
  default JNull (m !! lit k).

Definition dict_get_or (m : gmap str json) (k : string) (dflt : json) : json :=
  default dflt (m !! lit k).

(** [list(v)], and what [for it in v] goes through; [None] when [v] is not
    iterable. *)
Definition py_list (v : json) : option (list json) :=
  match v with
  | JArr l => Some l
  | JStr s => Some ((λ c, JStr [c]) <$> s)
  | JObj m => Some ((λ kv, JStr kv.1) <$> map_to_list m)
  | _ => None
  end.

(** ** [winget_list_upgrades] (part2_helpers.py) *)

(** The dataclass [WingetApp]; its fields [id], [name], [version] and
    [available] hold whatever the parser put there. *)
Record WingetApp := mkWingetApp {
  app_id : json;
  app_name : json;
  app_version : json;
  app_available : json
}.

(** The row the JSON path builds from one decoded object: [pid], [name],
    [ver] and [avail] of the source. *)
Definition json_row (m : gmap str json) : WingetApp :=
  let pid := py_or (dict_get m "Id") (dict_get m "PackageIdentifier") in
  let name := dict_get_or m "Name" (JStr []) in
  let ver :=
    py_or (py_or (dict_get m "Version") (dict_get m "InstalledVersion"))
          (JStr []) in
  let avail :=
    py_or (py_or (dict_get m "Available") (dict_get m "AvailableVersion"))
          (JStr []) in
  mkWingetApp pid name ver avail.

(** The body of [for it in items] on the JSON path.  [None]: the body
    raises ([it] has no [get]); [Some None]: no row is appended
    ([if pid and avail] fails). *)
Definition json_item (it : json) : option (option WingetApp) :=
  match it with
  | JObj m =>
      let r := json_row m in
      Some (if truthy (app_id r) && truthy (app_available r)
            then Some r else None)
  | _ => None
  end.

Fixpoint json_loop (items : list json) (rows : list WingetApp)
  : option (list WingetApp) :=
  match items with
  | [] => Some rows
  | it :: items' =>
      match json_item it with
      | None => None
      | Some None => json_loop items' rows
      | Some (Some r) => json_loop items' (rows ++ [r])
      end
  end.

(** [rows] after the loop over the decoded value, [None] when something in
    the [try] block raises.  Iterating a [dict] or a [str] yields strings,
    on which [get] raises; the other scalars are not iterable. *)
Definition json_rows (items : json) : option (list WingetApp) :=
  match items with
  | JArr l => json_loop l []
  | JObj m => match map_to_list m with [] => Some [] | _ => None end
  | JStr s => match s with [] => Some [] | _ => None end
  | _ => None
  end.

(** [re.match(r"^\s*(Name|---)", line)]. *)
Definition match_name_or_dashes (line : str) : bool :=
  let s := lstrip line in
  startswith (lit "Name") s || startswith (lit "---") s.

(** The body of the loop of the table fallback: the row appended for
    [line], if any. *)
Definition table_line (line : str) : option WingetApp :=
  if match_name_or_dashes line then None
  else
    match re_split_ws2 (strip line) with
    | name :: pid :: ver :: avail :: _ =>
        if nonempty pid && nonempty avail && negb (lower_startswith_no pid)
        then Some (mkWingetApp (JStr pid) (JStr name) (JStr ver) (JStr avail))
        else None
    | _ => None
    end.

Definition table_rows (stdout : str) : list WingetApp :=
  fold_left
    (fun rows line =>
       match table_line line with Some r => rows ++ [r] | None => rows end)
    (splitlines stdout) [].

(** What the system answers to [winget_list_upgrades]: whether
    [ensure_winget_ready] returns, the resolved executable, and the output
    of the three commands the function may run. *)
Record winget_world := {
  ensure_ok : bool;
  exe : str;
  help_stdout : str;
  json_decoded : option json;   (* [json.loads(res.stdout)], [None]: raises *)
  table_stdout : str
}.

Definition cmd_help (w : winget_world) : list str :=
  [exe w; lit "upgrade"; lit "-?"].
Definition cmd_json (w : winget_world) : list str :=
  [exe w; lit "upgrade"; lit "--include-unknown"; lit "--output"; lit "json"].
Definition cmd_table (w : winget_world) : list str :=
  [exe w; lit "upgrade"; lit "--include-unknown"].

(** The commands the function runs itself, in order, and the rows it
    returns. *)
Definition winget_list_upgrades (w : winget_world)
  : list (list str) * list WingetApp :=
  if negb (ensure_ok w) then ([], [])
  else if contains (lit "--output") (help_stdout w) then
    match json_decoded w ≫= json_rows with
    | Some (r :: rows) => ([cmd_help w; cmd_json w], r :: rows)
    | _ => ([cmd_help w; cmd_json w; cmd_table w], table_rows (table_stdout w))
    end
  else ([cmd_help w; cmd_table w], table_rows (table_stdout w)).

(** ** [run_with_live_output] (part2_helpers.py) *)

(** [subprocess.Popen]: the executable is not found, or a process starts. *)
Inductive popen (A : Type) :=
  | FileNotFoundError
  | Started (p : A).
Arguments FileNotFoundError {A}.
Arguments Started {A} p.

(** A process read line by line: what [readline] returns until the end of
    the output, and [proc.returncode] after [wait]. *)
Record process := {
  stdout_lines : list str;
  returncode : option Z
}.

(** The variables of the read loop; [lv_completed] is the [completed] value
    of the progress task. *)
Record live := {
  lv_logs : list str;
  lv_combined : list str;
  lv_tick : Z;
  lv_completed : Z
}.

(** [logs.append(s); if len(logs) > 40: logs = logs[-40:]]. *)
Definition log40 (logs : list str) (s : str) : list str :=
  let logs := logs ++ [s] in
  if (40 <? length logs)%nat then last_n 40 logs else logs.

Definition live_start (title : str) : live :=
  {| lv_logs := log40 [] title; lv_combined := []; lv_tick := 0;
     lv_completed := 0 |}.

(** One turn of the loop for a line that [readline] returned. *)
Definition live_line (soft_total : Z) (st : live) (line : str) : live :=
  if nonempty line then
    let s := rstrip line in
    let tick := (lv_tick st + 1)%Z in
    {| lv_logs := log40 (lv_logs st) s;
       lv_combined := lv_combined st ++ [s];
       lv_tick := tick;
       lv_completed :=
         if (tick <=? soft_total)%Z then (lv_completed st + 1)%Z
         else lv_completed st |}
  else st.

Definition live_loop (title : str) (soft_total : Z) (p : process) : live :=
  fold_left (live_line soft_total) (stdout_lines p) (live_start title).

(** [proc.returncode or 0]. *)
Definition returncode_or_0 (rc : option Z) : Z :=
  match rc with
  | Some z => if (z =? 0)%Z then 0%Z else z
  | None => 0%Z
  end.

(** [cmd[0]] is read only after [Popen] failed to find it, hence on a
    command that has one. *)
Definition run_with_live_output
  (cmd : list str) (title : str) (soft_total : Z) (os : popen process)
  : Z * str :=
  match os with
  | FileNotFoundError =>
      (127%Z, lit "Command not found: " ++ List.hd [] cmd)
  | Started p =>
      let st := live_loop title soft_total p in
      (returncode_or_0 (returncode p), join [10] (lv_combined st))
  end.

(** ** Windows Update helpers (part2_helpers.py) *)

(** The command line that runs the PowerShell script [ps]. *)
Definition powershell (ps : str) : list str :=
  [lit "powershell"; lit "-NoProfile"; lit "-ExecutionPolicy"; lit "Bypass";
   lit "-Command"; ps].

(** [ps] is the script of the source. *)
Definition ensure_pswindowsupdate_installed (ps : str) (os : popen process)
  : bool :=
  let '(rc, out) :=
    run_with_live_output (powershell ps) (lit "Preparing PSWindowsUpdate") 40
      os in
  (rc =? 0)%Z && contains (lit "OK") out.

(** The dataclass [WinUpdate]. *)
Record WinUpdate := {
  title : json;
  kb : json;
  update_id : json;
  categories : list json
}.

(** The [WinUpdate] appended for [it], [None] when building it raises. *)
Definition win_update (it : json) : option WinUpdate :=
  match it with
  | JObj m =>
      cats ← py_list (py_or (dict_get_or m "Categories" (JArr [])) (JArr []));
      Some {| title := dict_get_or m "Title" (JStr []);
              kb := dict_get m "KB";
              update_id := dict_get_or m "UpdateId" (JStr []);
              categories := cats |}
  | _ => None
  end.

Fixpoint win_updates (items : list json) (ups : list WinUpdate)
  : option (list WinUpdate) :=
  match items with
  | [] => Some ups
  | it :: items' =>
      match win_update it with
      | Some x => win_updates items' (ups ++ [x])
      | None => None
      end
  end.

(** What the system answers to [_ps_get_updates]: the process that prepares
    the module, the process that scans, and the value [json.loads] gives
    for the output of the scan ([None]: it raises). *)
Record updates_os := {
  os_prepare : popen process;
  os_scan : popen process;
  scan_decoded : option json
}.

(** [ps_prepare] and [ps_scan] are the two scripts ([include_drivers] only
    changes the text of the second).  [None]: the loop over the items, which
    is outside [try], raises. *)
Definition _ps_get_updates (ps_prepare ps_scan : str) (w : updates_os)
  : option (list WinUpdate) :=
  if negb (ensure_pswindowsupdate_installed ps_prepare (os_prepare w))
  then Some []
  else
    let '(rc, out) :=
      run_with_live_output (powershell ps_scan)
        (lit "Scanning Windows Updates") 80 (os_scan w) in
    if negb (rc =? 0)%Z || negb (nonempty (strip out)) then Some []
    else
      match scan_decoded w with
      | None => Some []
      | Some items =>
          let items :=
            match items with JObj _ => JArr [items] | _ => items end in
          l ← py_list items; win_updates l []
      end.

(** ** The live display of the health check (part3_health.py)

    [logs] is the Python list shared by [health_check] and its helpers;
    [panel] is the list of lines last put on the "Live Log" panel (the
    source joins them with a newline); [completed] and [description] belong
    to the one progress task; [writes] records every value given to
    [progress.update(..., completed=...)], oldest first. *)
Record ui := {
  logs : list str;
  panel : list str;
  completed : Q;
  description : str;
  writes : list Q
}.

(** [layout["logs"].update(Panel(Text("\n".join(logs[-20:])), ...))]. *)
Definition render (u : ui) : ui :=
  {| logs := logs u; panel := last_n 20 (logs u); completed := completed u;
     description := description u; writes := writes u |}.

Definition set_logs (l : list str) (u : ui) : ui :=
  {| logs := l; panel := panel u; completed := completed u;
     description := description u; writes := writes u |}.

(** [logs.append(s)] followed by the panel update. *)
Definition log_plain (s : str) (u : ui) : ui :=
  render (set_logs (logs u ++ [s]) u).

(** [if len(logs) > 20: logs.pop(0)]. *)
Definition evict20 (l : list str) : list str :=
  if (20 <? length l)%nat then tail l else l.

(** [logs.append(s); if len(logs) > 20: logs.pop(0)] followed by the panel
    update. *)
Definition log_evict (s : str) (u : ui) : ui :=
  render (set_logs (evict20 (logs u ++ [s])) u).

(** [progress.update(task_id, completed=q)]. *)
Definition update_completed (q : Q) (u : ui) : ui :=
  {| logs := logs u; panel := panel u; completed := q;
     description := description u; writes := writes u ++ [q] |}.

(** [progress.update(task, description=d)]. *)
Definition update_description (d : str) (u : ui) : ui :=
  {| logs := logs u; panel := panel u; completed := completed u;
     description := d; writes := writes u |}.

(** [proc.communicate(timeout=...)]: the timeout expires (the process had
    printed [partial] by then), or the process ends having printed [out]. *)
Inductive communicate :=
  | TimeoutExpired (partial : str)
  | Finished (out : str).

(** ** [_stream_winget_upgrades] *)

(** The dict [{"Id": pid, "Name": name, "Version": ver, "Available": avail}]. *)
Record app := {
  Id : str;
  Name : str;
  Version : str;
  Available : str
}.

Record stream_state := {
  st_ui : ui;
  apps : list app;
  header_seen : bool;
  sep_seen : bool;
  current_pct : Q;
  killed : bool        (* [proc.kill()] was called *)
}.

Definition after_lit (p : string) (s : str) : option str :=
  if startswith (lit p) s then Some (drop (length (lit p)) s) else None.

(** [\s+] before a literal that does not begin with white space. *)
Definition after_ws1 (s : str) : option str :=
  match s with
  | c :: s' => if isspace c then Some (lstrip s') else None
  | [] => None
  end.

(** [re.match(r"^\s*Name\s+Id\s+Version\s+Available", line)]. *)
Definition match_header (line : str) : bool :=
  match
    s ← after_lit "Name" (lstrip line); s ← after_ws1 s;
    s ← after_lit "Id" s; s ← after_ws1 s;
    s ← after_lit "Version" s; s ← after_ws1 s;
    after_lit "Available" s
  with
  | Some _ => true
  | None => false
  end.

(** [re.match(r"^\s*-{3,}", line)]. *)
Definition match_dashes (line : str) : bool :=
  startswith (lit "---") (lstrip line).

Definition with_ui (f : ui -> ui) (st : stream_state) : stream_state :=
  {| st_ui := f (st_ui st); apps := apps st; header_seen := header_seen st;
     sep_seen := sep_seen st; current_pct := current_pct st;
     killed := killed st |}.

(** The closure [_bump]. *)
Definition _bump (phase_start phase_end : Q) (st : stream_state)
  : stream_state :=
  let step := ((phase_end - phase_start) / 50)%Q in
  let pct := Qmin phase_end (current_pct st + step)%Q in
  {| st_ui := update_completed pct (st_ui st); apps := apps st;
     header_seen := header_seen st; sep_seen := sep_seen st;
     current_pct := pct; killed := killed st |}.

(** [f"Found: {name} ({pid}) {ver or '?'} → {avail}"]. *)
Definition found_message (a : app) : str :=
  lit "Found: " ++ Name a ++ lit " (" ++ Id a ++ lit ") "
    ++ (if nonempty (Version a) then Version a else lit "?")
    ++ [32; 8594; 32] ++ Available a.

(** The body of [for line in (out or "").splitlines()]. *)
Definition stream_line (phase_start phase_end : Q) (st : stream_state)
  (line : str) : stream_state :=
  let line := rstrip line in
  if negb (nonempty line) then _bump phase_start phase_end st
  else if match_header line then
    {| st_ui := st_ui st; apps := apps st; header_seen := true;
       sep_seen := false; current_pct := current_pct st; killed := killed st |}
  else if header_seen st && match_dashes line then
    {| st_ui := st_ui st; apps := apps st; header_seen := header_seen st;
       sep_seen := true; current_pct := current_pct st; killed := killed st |}
  else if negb (header_seen st) || negb (sep_seen st) then
    _bump phase_start phase_end st
  else
    match re_split_ws2 (strip line) with
    | name :: pid :: ver :: avail :: _ =>
        if lower_startswith_no pid || lower_startswith_no name then
          _bump phase_start phase_end st
        else
          let a := {| Id := pid; Name := name; Version := ver;
                      Available := avail |} in
          _bump phase_start phase_end
            {| st_ui := log_evict (found_message a) (st_ui st);
               apps := apps st ++ [a]; header_seen := header_seen st;
               sep_seen := sep_seen st; current_pct := current_pct st;
               killed := killed st |}
    | _ =>
        _bump phase_start phase_end (with_ui (log_evict line) st)
    end.

Definition stream_start (phase_start : Q) (u : ui) : stream_state :=
  {| st_ui := u; apps := []; header_seen := false; sep_seen := false;
     current_pct := phase_start; killed := false |}.

(** The function returns [apps]; the state it leaves is returned with it. *)
Definition _stream_winget_upgrades (os : popen communicate) (u : ui)
  (phase_start phase_end : Q) : stream_state :=
  match os with
  | FileNotFoundError =>
      stream_start phase_start
        (log_plain
           (lit "winget not found (install App Installer from Microsoft Store).")
           u)
  | Started c =>
      let st :=
        stream_start phase_start
          (log_plain (lit "Checking for app updates" ++ [8230]) u) in
      match c with
      | TimeoutExpired _ =>
          let st :=
            {| st_ui := st_ui st; apps := apps st;
               header_seen := header_seen st; sep_seen := sep_seen st;
               current_pct := current_pct st; killed := true |} in
          with_ui
            (fun u => update_completed phase_end
                        (log_evict (lit "winget scan timed out.") u))
            st
      | Finished out =>
          with_ui (update_completed phase_end)
            (fold_left (stream_line phase_start phase_end) (splitlines out) st)
      end
  end.

(** ** [_scan_windows_updates_quiet] *)

(** The dict built for each reported update. *)
Record update_item := {
  Title : json;
  KB : json;
  UpdateId : json;
  Categories : list json
}.

(** What the system answers to the scan: the process, the value
    [json.loads] gives for its stripped output ([None]: it raises), and the
    text of the exception caught by [except Exception as e], if any. *)
Record updates_world := {
  uw_proc : popen communicate;
  uw_decoded : option json;
  uw_error : str
}.

(** The dict appended for [it], [None] when building it raises. *)
Definition quiet_item (it : json) : option update_item :=
  match it with
  | JObj m =>
      cats ← py_list (py_or (dict_get_or m "Categories" (JArr [])) (JArr []));
      Some {| Title := dict_get_or m "Title" (JStr []);
              KB := dict_get_or m "KB" JNull;
              UpdateId := dict_get_or m "UpdateId" (JStr []);
              Categories := cats |}
  | _ => None
  end.

(** The loop inside [try]; [items] is appended to in place, so what was
    appended before an exception stays.  The flag tells whether the loop
    raised. *)
Fixpoint quiet_loop (j : list json) (items : list update_item)
  : list update_item * bool :=
  match j with
  | [] => (items, false)
  | it :: j' =>
      match quiet_item it with
      | Some x => quiet_loop j' (items ++ [x])
      | None => (items, true)
      end
  end.

(** What [for it in (j or [])] iterates over, after a dict was wrapped in a
    list; [None] when [j] is not iterable. *)
Definition quiet_iter (j : json) : option (list json) :=
  match j with
  | JObj m => Some [JObj m]
  | _ => if truthy j then py_list j else Some []
  end.

(** [(u.get("Title") or "").strip()], [None] when [strip] does not exist
    on the value. *)
Definition quiet_title (t : json) : option str :=
  match py_or t (JStr []) with
  | JStr s => Some (strip s)
  | _ => None
  end.

(** The loop over [items[:50]]; the flag tells whether it raised. *)
Fixpoint quiet_bumps (phase_start phase_end : Q) (items : list update_item)
  (u : ui) : ui * bool :=
  match items with
  | [] => (u, false)
  | it :: items' =>
      match quiet_title (Title it) with
      | None => (u, true)
      | Some title =>
          let u := log_evict (lit "Windows Update: " ++ title) u in
          (* [progress.tasks[0].completed]: the progress has its one task *)
          let current := completed u in
          let next_pct :=
            Qmin phase_end (current + (phase_end - phase_start) / 40)%Q in
          quiet_bumps phase_start phase_end items'
            (update_completed next_pct u)
      end
  end.

(** The display the function leaves and what it returns, [None] when an
    exception leaves the function. *)
Definition _scan_windows_updates_quiet (w : updates_world) (u : ui)
  (phase_start phase_end : Q) : ui * option (list update_item) :=
  match uw_proc w with
  | FileNotFoundError =>
      (update_completed phase_end (log_plain (lit "PowerShell not found.") u),
       Some [])
  | Started c =>
      let u := log_plain (lit "Checking Windows updates" ++ [8230]) u in
      match c with
      | TimeoutExpired _ =>
          (update_completed phase_end
             (log_evict (lit "Windows update scan timed out.") u),
           Some [])
      | Finished out =>
          let out := strip out in
          let decoded :=
            if nonempty out then uw_decoded w else Some (JArr []) in
          let '(items, raised) :=
            match decoded ≫= quiet_iter with
            | Some j => quiet_loop j []
            | None => ([], true)
            end in
          let u :=
            if raised
            then log_plain (lit "Windows update parse error: " ++ uw_error w) u
            else u in
          let '(u, raised) :=
            match items with
            | [] => (log_plain (lit "No Windows updates reported.") u, false)
            | _ => quiet_bumps phase_start phase_end (take 50 items) u
            end in
          if raised then (u, None)
          else (update_completed phase_end u, Some items)
      end
  end.

(** ** Executables that cannot be started

    [subprocess.Popen] raises [FileNotFoundError] when the executable is
    not there, and another [OSError] ([PermissionError] for a file that is
    there but may not be run) when it is there and cannot be started.
    [run_with_live_output], [_stream_winget_upgrades] and
    [_scan_windows_updates_quiet] call it under [except FileNotFoundError]:
    any other exception of [Popen] leaves them. *)
Inductive spawn (A : Type) :=
  | OtherOSError
  | Popen (os : popen A).
Arguments OtherOSError {A}.
Arguments Popen {A} os.

(** The three functions on every outcome of [Popen]; [None]: the exception
    leaves the function. *)
Definition run_with_live_output_spawn
  (cmd : list str) (title : str) (soft_total : Z) (os : spawn process)
  : option (Z * str) :=
  match os with
  | OtherOSError => None
  | Popen os => Some (run_with_live_output cmd title soft_total os)
  end.

Definition _stream_winget_upgrades_spawn (os : spawn communicate) (u : ui)
  (phase_start phase_end : Q) : option stream_state :=
  match os with
  | OtherOSError => None
  | Popen os => Some (_stream_winget_upgrades os u phase_start phase_end)
  end.

Definition _scan_windows_updates_quiet_spawn (proc : spawn communicate)
  (decoded : option json) (error : str) (u : ui) (phase_start phase_end : Q)
  : option (ui * option (list update_item)) :=
  match proc with
  | OtherOSError => None
  | Popen os =>
      Some (_scan_windows_updates_quiet
              {| uw_proc := os; uw_decoded := decoded; uw_error := error |}
              u phase_start phase_end)
  end.

(** ** [health_check]: the scan, up to the summary

    [ensure_deps] and [console.print] do not touch the display modelled
    here.  [junk] is the text [human_bytes(junk_size)]. *)
Record health := {
  h_ui : ui;
  h_apps : list app;
  h_os_items : list update_item;
  h_killed : bool
}.

Definition ui_start : ui :=
  {| logs := []; panel := [lit "Starting" ++ [8230]]; completed := 0%Q;
     description := lit "Scanning system health" ++ [8230]; writes := [] |}.

Definition health_check (winget : popen communicate) (junk : str) : health :=
  (* Apps 0..40 *)
  let u := update_description (lit "Preparing winget app scan" ++ [8230]) ui_start in
  let u := log_plain (lit "Preparing winget app scan" ++ [8230]) u in
  let st := _stream_winget_upgrades winget u 0%Q 40%Q in
  let found := apps st in
  let u := st_ui st in
  let u :=
    log_evict
      (lit "App scan complete. " ++ lit (pretty (length found))
         ++ lit " update(s) detected.") u in
  (* Windows updates removed *)
  let u :=
    update_description
      (lit "Windows updates disabled " ++ [8212] ++ lit " skipping" ++ [8230]) u in
  let u := log_evict (lit "Windows updates disabled; skipping PowerShell scan.") u in
  let u := update_completed 80%Q u in
  let os_items := [] in
  (* Junk 80..100 *)
  let u := update_description (lit "Scanning junk files" ++ [8230]) u in
  let u := log_plain (lit "Scanning junk files" ++ [8230]) u in
  let u := log_evict (lit "Junk size detected: " ++ junk) u in
  let u := update_completed 100%Q u in
  let u := log_plain (lit "Scan complete.") u in
  {| h_ui := u; h_apps := found; h_os_items := os_items;
     h_killed := killed st |}.

(** The lines the loop acts on: those for which [if line:] holds, stripped
    on the right. *)
Definition live_lines (ls : list str) : list str :=
  rstrip <$> List.filter nonempty ls.


(** A call that appends to [logs] in the health check: the plain idiom
    ([log_plain]) or the one that evicts ([log_evict]). *)
Inductive log_call :=
  | Append (s : str)
  | AppendEvict (s : str).

Definition log_text (c : log_call) : str :=
  match c with Append s | AppendEvict s => s end.

Definition do_log (u : ui) (c : log_call) : ui :=
  match c with
  | Append s => log_plain s u
  | AppendEvict s => log_evict s u
  end.

(** ** Sample outputs of [winget upgrade] *)

Definition nl : str := [10].

Definition sample_header : str := lit "Name   Id   Version   Available".

Definition sample_row : str := lit "Foo Bar   FooBar.App   1.0   2.0".

(** Header, separator and [n] data rows. *)
Definition sample_table (n : nat) : str :=
  sample_header ++ nl ++ lit "--------------------------------" ++ nl
    ++ concat (replicate n (sample_row ++ nl)).

(** ** Invariants of the display *)

(** [all] is every line appended so far: [logs] is its tail end and holds
    at least the last twenty. *)
Definition log_inv (all : list str) (u : ui) : Prop :=
  (exists pre, all = pre ++ logs u)
  /\ (20 `min` length all <= length (logs u))%nat.

(** [w] is [w0] followed by the values [ws] written since the phase was
    entered with the value [start]: they never decrease nor exceed [pe],
    [cur] is the last of them ([start] when there is none), and they
    continue [start] when it is not beyond [pe]. *)
Definition phase_inv (w0 : list Q) (start pe : Q) (w : list Q) (cur : Q)
  : Prop :=
  exists ws,
    w = w0 ++ ws
    /\ Sorted Qle ws
    /\ Forall (fun q => q <= pe)%Q ws
    /\ last (start :: ws) = Some cur
    /\ ((start <= pe)%Q -> Sorted Qle (start :: ws)).

(** The invariant of [_stream_winget_upgrades] entered with display [u0],
    and that of [_scan_windows_updates_quiet]. *)
Definition stream_inv (phase_start phase_end : Q) (u0 : ui)
  (st : stream_state) : Prop :=
  phase_inv (writes u0) phase_start phase_end
    (writes (st_ui st)) (current_pct st).

Definition quiet_inv (phase_end : Q) (u0 u : ui) : Prop :=
  phase_inv (writes u0) (completed u0) phase_end (writes u) (completed u).

(** The two tests of the loop of [_stream_winget_upgrades] that take a
    line for the header or the separator of the table, in the order of the
    source: such a line only changes [header_seen] and [sep_seen]. *)
Definition header_or_separator (st : stream_state) (l : str) : bool :=
  nonempty l && (match_header l || (header_seen st && match_dashes l)).

(** [pre] are the lines read so far: a flag that is set has its line in
    [pre], the separator after the header. *)
Definition gate_inv (pre : list str) (st : stream_state) : Prop :=
  (header_seen st = true ->
   exists a h b, pre = a ++ h :: b /\ match_header (rstrip h) = true)
  /\ (sep_seen st = true ->
      exists a h b s c,
        pre = a ++ h :: b ++ s :: c
        /\ match_header (rstrip h) = true
        /\ match_dashes (rstrip s) = true).

(** * More of the code *)

(** ** [winget_list_installed] (part2_helpers.py) *)

(** The body of the loop: the row appended for [line], if any. *)
Definition installed_line (line : str) : option WingetApp :=
  if match_name_or_dashes line then None
  else
    match re_split_ws2 (strip line) with
    | name :: pid :: ver :: _ =>
        if nonempty pid && negb (lower_startswith_no pid)
        then Some (mkWingetApp (JStr pid) (JStr name) (JStr ver) (JStr []))
        else None
    | _ => None
    end.

(** How [ensure_winget_ready] ends: it returns; or winget does not answer,
    the Store page is opened and [RuntimeError] is raised; or opening the
    Store page fails, [Popen(["powershell", ...])] in the [except] block
    raising in its turn ([FileNotFoundError] where there is no PowerShell),
    and that exception leaves the function in place of [RuntimeError]. *)
Inductive winget_ready :=
  | Ready
  | NotReady
  | StorePageFailed.

(** [stdout]: the output of [winget list].  Only [RuntimeError] is caught;
    [None]: an exception leaves the function. *)
Definition winget_list_installed (ready : winget_ready) (stdout : str)
  : option (list WingetApp) :=
  match ready with
  | NotReady => Some []
  | StorePageFailed => None
  | Ready =>
      Some
        (fold_left
           (fun rows line =>
              match installed_line line with
              | Some r => rows ++ [r]
              | None => rows
              end)
           (splitlines stdout) [])
  end.

(** ** [human_bytes] (part3_health.py)

    [float(n)] is exact for the integers below [2^53], and so are the
    divisions by 1024: on these sizes the floats of the source are the
    rationals used here. *)

Definition units : list str := [lit "B"; lit "KB"; lit "MB"; lit "GB"; lit "TB"].

(** The nearest integer, ties to the even one. *)
Definition round_half_even (t : Q) : Z :=
  let k := Qfloor t in
  match (t - inject_Z k ?= 1 # 2)%Q with
  | Lt => k
  | Gt => (k + 1)%Z
  | Eq => if Z.even k then k else (k + 1)%Z
  end.

(** [f"{f:.1f}"]: the nearest tenth of the exact value. *)
Definition format_1f (f : Q) : str :=
  let tenths := round_half_even (Qabs f * 10) in
  (if Qle_bool 0 f then [] else lit "-")
    ++ lit (pretty (tenths / 10)%Z) ++ lit "." ++ lit (pretty (tenths mod 10)%Z).

(** The loop [while f >= 1024 and i < len(units)-1]; it ends on its own
    test before [fuel] runs out when [fuel] is at least four. *)
Fixpoint scale_units (fuel : nat) (f : Q) (i : nat) : Q * nat :=
  match fuel with
  | O => (f, i)
  | S fuel' =>
      if Qle_bool 1024 f && (i <? length units - 1)%nat
      then scale_units fuel' (f / 1024)%Q (S i)
      else (f, i)
  end.

Definition human_bytes (n : Z) : str :=
  let '(f, i) := scale_units (length units) (inject_Z n) 0 in
  format_1f f ++ lit " " ++ default [] (units !! i).

(** ** The log file: [log] and [tail_log] (part1_bootstrap.py) *)

(** The log file: it is not there, or it holds the text [f.read()]
    returns, or it holds bytes that are not UTF-8, on which [f.read()]
    raises. *)
Inductive log_file :=
  | NoFile
  | Text (text : str)
  | Undecodable.

(** [l[-n:]] for any integer [n]. *)
Definition slice_last {A} (n : Z) (l : list A) : list A :=
  if (0 <? n)%Z then last_n (Z.to_nat n) l else drop (Z.to_nat (- n)) l.

(** [stamp] is the formatted time; [ok] tells whether the file could be
    opened and written.  The line is appended: what the file held stays,
    and bytes that could not be decoded still cannot. *)
Definition log (ok : bool) (stamp msg : str) (file : log_file) : log_file :=
  if ok then
    let line := (stamp ++ lit " | " ++ msg) ++ nl in
    match file with
    | NoFile => Text line
    | Text text => Text (text ++ line)
    | Undecodable => Undecodable
    end
  else file.

(** Both [except] branches return the empty string. *)
Definition tail_log (n : Z) (file : log_file) : str :=
  match file with
  | Text text => join nl (slice_last n (splitlines text))
  | NoFile | Undecodable => []
  end.

(** ** [install_windows_updates] (part2_helpers.py) *)

(** [i.replace("'", "''")]. *)
Definition replace_quote (i : str) : str :=
  i ≫= (fun c => if c =? 39 then [39; 39] else [c]).

(** ["'" + i.replace("'", "''") + "'"]. *)
Definition ps_quote (i : str) : str := lit "'" ++ replace_quote i ++ lit "'".

Definition ids_literal (update_ids : list str) : str :=
  lit "@(" ++ join (lit ",") (ps_quote <$> update_ids) ++ lit ")".

Definition install_script (update_ids : list str) : str :=
  nl ++ lit "Import-Module PSWindowsUpdate" ++ nl
     ++ lit "Install-WindowsUpdate -MicrosoftUpdate -UpdateID "
     ++ ids_literal update_ids
     ++ lit " -AcceptAll -IgnoreReboot -AutoReboot:$false -Verbose:$false"
     ++ nl.

(** The calls of [run_with_live_output] the function makes, as command
    lines, in order.  [prepare] is the process that prepares the module. *)
Definition install_windows_updates (ps_prepare : str) (update_ids : list str)
  (prepare : popen process) : list (list str) :=
  match update_ids with
  | [] => []
  | _ =>
      if negb (ensure_pswindowsupdate_installed ps_prepare prepare)
      then [powershell ps_prepare]
      else [powershell ps_prepare; powershell (install_script update_ids)]
  end.

(** The characters PowerShell takes for a single quote: the ASCII one and
    the four typographic ones. *)
Definition is_ps_quote (c : char) : bool :=
  (c =? 39) || ((8216 <=? c) && (c <=? 8219)).

(** How PowerShell reads a single-quoted literal: a quote followed by a
    quote stands for the second of them, a quote alone ends the literal.
    The text read and what follows the closing quote; [None] when the
    literal is not closed. *)
Fixpoint ps_read_body (acc : str) (s : str) : option (str * str) :=
  match s with
  | [] => None
  | c :: s' =>
      if is_ps_quote c then
        match s' with
        | c' :: s'' =>
            if is_ps_quote c' then ps_read_body (c' :: acc) s''
            else Some (rev acc, s')
        | [] => Some (rev acc, [])
        end
      else ps_read_body (c :: acc) s'
  end.

Definition ps_read_literal (s : str) : option (str * str) :=
  match s with
  | c :: s' => if is_ps_quote c then ps_read_body [] s' else None
  | [] => None
  end.

(** ** [brew_list_installed] (part2_helpers.py) *)

(** [s.split()]: the maximal runs of characters that are not white
    space. *)
Fixpoint split_ws_from (cur : str) (s : str) : list str :=
  match s with
  | [] => match cur with [] => [] | _ => [rev cur] end
  | c :: s' =>
      if isspace c then
        match cur with
        | [] => split_ws_from [] s'
        | _ => rev cur :: split_ws_from [] s'
        end
      else split_ws_from (c :: cur) s'
  end.

Definition split_ws (s : str) : list str := split_ws_from [] s.

(** The body of the loop: the row appended for [line], if any. *)
Definition brew_line (line : str) : option WingetApp :=
  match split_ws (strip line) with
  | [] => None
  | name :: rest =>
      let versions :=
        match rest with [] => [] | _ => join (lit " ") rest end in
      Some (mkWingetApp (JStr name) (JStr name) (JStr versions) (JStr []))
  end.

(** [brew] is what [subprocess.run] gives: no executable, or a return code
    and an output.  [None]: [FileNotFoundError] leaves the function. *)
Definition brew_list_installed (brew : popen (Z * str))
  : option (list WingetApp) :=
  match brew with
  | FileNotFoundError => None
  | Started (rc, stdout) =>
      if negb (rc =? 0)%Z then Some []
      else
        Some (fold_left
                (fun rows line =>
                   match brew_line line with
                   | Some r => rows ++ [r]
                   | None => rows
                   end)
                (splitlines stdout) [])
  end.

(** ** The capability matrix (part0_platform.py) and [ensure_deps]
    (part2_helpers.py) *)

Definition CAPABILITIES : gmap str (gmap str bool) :=
  <[lit "windows" :=
      <[lit "apps" := true]>
        (<[lit "updates" := true]>
           (<[lit "drivers" := true]>
              (<[lit "power_plans" := true]>
                 (<[lit "restore_point" := true]>
                    (<[lit "junk_clean" := true]> ∅)))))]>
    (<[lit "darwin" :=
         <[lit "apps" := true]>
           (<[lit "updates" := false]>
              (<[lit "drivers" := false]>
                 (<[lit "power_plans" := false]>
                    (<[lit "restore_point" := false]>
                       (<[lit "junk_clean" := true]> ∅)))))]>
       (<[lit "linux" :=
            <[lit "apps" := false]>
              (<[lit "updates" := false]>
                 (<[lit "drivers" := false]>
                    (<[lit "power_plans" := false]>
                       (<[lit "restore_point" := false]>
                          (<[lit "junk_clean" := true]> ∅)))))]> ∅)).

(** [CAPABILITIES.get(OS_NAME, {}).get(feature, False)]. *)
Definition has_cap (OS_NAME feature : str) : bool :=
  default false (default ∅ (CAPABILITIES !! OS_NAME) !! feature).

(** What the system answers to [ensure_deps]: whether
    [ensure_winget_ready] returns without raising, what
    [subprocess.run(["brew","--version"])] gives (no executable, or a return
    code), and the process that prepares PSWindowsUpdate. *)
Record deps_world := {
  dw_winget_ready : bool;
  dw_brew : popen Z;
  dw_prepare : popen process
}.

(** [None]: [FileNotFoundError] leaves the function (the call of brew is
    not inside a [try]). *)
Definition ensure_deps (OS_NAME ps_prepare : str) (w : deps_world)
  (apps updates drivers : bool) : option bool :=
  ok ←
    (if apps then
       if bool_decide (OS_NAME = lit "windows") then Some (dw_winget_ready w)
       else if bool_decide (OS_NAME = lit "darwin") then
         match dw_brew w with
         | FileNotFoundError => None
         | Started rc => Some (rc =? 0)%Z
         end
       else Some false
     else Some true);
  Some
    (if updates || drivers then
       if negb (bool_decide (OS_NAME = lit "windows")) then false
       else if negb (ensure_pswindowsupdate_installed ps_prepare (dw_prepare w))
            then false
            else ok
     else ok).

(** ** [calc_size] (part3_health.py)

    What [os.walk] and [os.path.getsize] see under a path: a file with its
    size ([None] when [getsize] raises), or a directory with its entries. *)
Inductive fs_entry :=
  | FsFile (size : option Z)
  | FsDir (entries : list fs_entry).

(** The sizes of the files [os.walk] reaches at or under an entry, added
    up; a file whose size cannot be read counts for nothing. *)
Fixpoint entry_size (e : fs_entry) : Z :=
  match e with
  | FsFile size => default 0%Z size
  | FsDir entries =>
      (fix go (es : list fs_entry) : Z :=
         match es with
         | [] => 0
         | e' :: es' => entry_size e' + go es'
         end)%Z entries
  end.

Definition walk_size (entries : list fs_entry) : Z :=
  entry_size (FsDir entries).

(** [fs base] is what is at the path [base], [None] when
    [os.path.exists(base)] is false. *)
Definition calc_size (fs : str -> option fs_entry) (paths : list str) : Z :=
  fold_left
    (fun total base =>
       match fs base with
       | Some (FsDir entries) => (total + walk_size entries)%Z
       | _ => total
       end)
    paths 0%Z.

(** ** [list_installed_drivers] (part2_helpers.py) *)

(** The dataclass [DriverPackage]. *)
Record DriverPackage := {
  published_name : str;
  provider : str;
  version : str;
  date : str
}.

(** The dict [d] of one block. *)
Record driver_dict := {
  d_published_name : option str;
  d_provider : option str;
  d_version : option str;
  d_date : option str
}.

(** Whether the lower case of [c] is the letter or space [x].  Besides
    [x] and its capital, only the Kelvin sign has an ASCII lower case
    ([k]). *)
Definition lower_char_is (x c : char) : bool :=
  (c =? x) || ((97 <=? x) && (x <=? 122) && (c =? x - 32))
  || ((x =? 107) && (c =? 8490)).

(** [s.lower().startswith(p)] for a pattern [p] of lower-case letters and
    spaces in which no [i] is last: [lower] works character by character
    but for the dotted capital I, whose lower case is [i] and a combining
    dot. *)
Fixpoint lower_startswith (p s : str) : bool :=
  match p, s with
  | [], _ => true
  | x :: p', c :: s' => lower_char_is x c && lower_startswith p' s'
  | _ :: _, [] => false
  end.

(** [line.split(":", 1)[1]], [None] when it raises [IndexError]. *)
Fixpoint after_colon (line : str) : option str :=
  match line with
  | [] => None
  | c :: line' => if c =? 58 then Some line' else after_colon line'
  end.

(** The body of [for line in b.splitlines()], [None] when it raises. *)
Definition driver_line (d : driver_dict) (line : str) : option driver_dict :=
  if lower_startswith (lit "published name") line then
    t ← after_colon line;
    Some {| d_published_name := Some (strip t); d_provider := d_provider d;
            d_version := d_version d; d_date := d_date d |}
  else if lower_startswith (lit "driver package provider") line then
    t ← after_colon line;
    Some {| d_published_name := d_published_name d;
            d_provider := Some (strip t);
            d_version := d_version d; d_date := d_date d |}
  else if lower_startswith (lit "driver date and version") line then
    t ← after_colon line;
    match split_ws (strip t) with
    | day :: v :: rest =>
        Some {| d_published_name := d_published_name d;
                d_provider := d_provider d;
                d_version := Some (join (lit " ") (v :: rest));
                d_date := Some day |}
    | _ => Some d
    end
  else Some d.

Fixpoint driver_lines (d : driver_dict) (lines : list str)
  : option driver_dict :=
  match lines with
  | [] => Some d
  | line :: lines' => d' ← driver_line d line; driver_lines d' lines'
  end.

(** The [DriverPackage] built from [d] when all four keys are in it. *)
Definition driver_package (d : driver_dict) : option DriverPackage :=
  match d_published_name d, d_provider d, d_version d, d_date d with
  | Some n, Some p, Some v, Some t =>
      Some {| published_name := n; provider := p; version := v; date := t |}
  | _, _, _, _ => None
  end.

Definition driver_dict_empty : driver_dict :=
  {| d_published_name := None; d_provider := None; d_version := None;
     d_date := None |}.

Fixpoint driver_blocks (blocks : list str) (pkgs : list DriverPackage)
  : option (list DriverPackage) :=
  match blocks with
  | [] => Some pkgs
  | b :: blocks' =>
      d ← driver_lines driver_dict_empty (splitlines b);
      driver_blocks blocks'
        (match driver_package d with Some p => pkgs ++ [p] | None => pkgs end)
  end.

(** [\r?\n] at the head of [s]: what follows it. *)
Definition eat_newline (s : str) : option str :=
  match s with
  | c :: r =>
      if c =? 10 then Some r
      else if c =? 13 then
        match r with
        | c' :: r' => if c' =? 10 then Some r' else None
        | [] => None
        end
      else None
  | [] => None
  end.

(** [re.split(r"\r?\n\r?\n", s)]; every step uses up a character, so
    [fuel] above the length of [s] is never exhausted. *)
Fixpoint split_blocks_from (fuel : nat) (cur : str) (s : str) : list str :=
  match fuel with
  | O => [rev cur ++ s]
  | S fuel' =>
      match eat_newline s ≫= eat_newline with
      | Some r => rev cur :: split_blocks_from fuel' [] r
      | None =>
          match s with
          | c :: s' => split_blocks_from fuel' (c :: cur) s'
          | [] => [rev cur]
          end
      end
  end.

Definition split_blocks (s : str) : list str :=
  split_blocks_from (S (length s)) [] s.

(** [pnputil] is what [subprocess.run] gives: no executable, or a return
    code and an output.  [None]: an exception leaves the function. *)
Definition list_installed_drivers (pnputil : popen (Z * str))
  : option (list DriverPackage) :=
  match pnputil with
  | FileNotFoundError => None
  | Started (rc, stdout) =>
      if negb (rc =? 0)%Z then Some []
      else driver_blocks (split_blocks (strip stdout)) []
  end.

(** ** Predicates used in the statements *)

(** No white space at either end. *)
Definition trimmed (s : str) : Prop :=
  match s with c :: _ => isspace c = false | [] => True end
  /\ match last s with Some c => isspace c = false | None => True end.

(** No character at which [splitlines] cuts. *)
Definition one_line (s : str) : Prop :=
  Forall (fun c => (c =? 13) = false /\ is_linebreak c = false) s.

(** Not empty and without white space: what [s.split()] gives. *)
Definition token (s : str) : Prop :=
  s <> [] /\ Forall (fun c => isspace c = false) s.

(** The values a block's dict can hold. *)
Definition driver_dict_ok (d : driver_dict) : Prop :=
  (forall n, d_published_name d = Some n -> trimmed n)
  /\ (forall p, d_provider d = Some p -> trimmed p)
  /\ (forall v, d_version d = Some v -> v <> [] /\ trimmed v)
  /\ (forall t, d_date d = Some t -> token t).

(** The three keys [list_installed_drivers] looks for at the start of a
    line. *)
Definition driver_keys : list str :=
  [lit "published name"; lit "driver package provider";
   lit "driver date and version"].

(** [_ps_get_updates] gets as far as its loop over the decoded value [v]:
    the module is there, the scan ended with code 0 and printed something
    other than white space, and [json.loads] gave [v]. *)
Definition scan_gives (ps_prepare ps_scan : str) (w : updates_os) (v : json)
  : Prop :=
  ensure_pswindowsupdate_installed ps_prepare (os_prepare w) = true
  /\ (exists out,
        run_with_live_output (powershell ps_scan)
          (lit "Scanning Windows Updates") 80 (os_scan w) = (0%Z, out)
        /\ strip out <> [])
  /\ scan_decoded w = Some v.

(** A decoded update as the PowerShell script prints it: an object whose
    [Title], when there, is a string and whose [Categories], when there,
    is an array. *)
Definition plain_update (j : json) : Prop :=
  exists m,
    j = JObj m
    /\ (m !! lit "Title" = None \/ exists s, m !! lit "Title" = Some (JStr s))
    /\ (m !! lit "Categories" = None
        \/ exists l, m !! lit "Categories" = Some (JArr l)).

(** [f"Windows Update: {title}"], the line logged for an item whose title
    can be stripped. *)
Definition quiet_log_line (it : update_item) : str :=
  lit "Windows Update: " ++ default [] (quiet_title (Title it)).

(** * Properties *)

(** Case analysis on every test and every list match of the goal. *)
Ltac split_branches :=
  repeat match goal with
         | |- context [if ?b then _ else _] => destruct b
         | |- context [match ?l with [] => _ | _ :: _ => _ end] => destruct l
         end.

(** ** The window [l[-n:]] *)

Section last_n_facts.
Context {A : Type}.
Implicit Types (l pre : list A) (n : nat).

Lemma last_n_length n l : length (last_n n l) = (n `min` length l)%nat.
Proof. unfold last_n. rewrite length_drop. lia. Qed.

Lemma last_n_all n l : (length l <= n)%nat -> last_n n l = l.
Proof.
  intros Hn. unfold last_n.
  replace (length l - n)%nat with 0%nat by lia. reflexivity.
Qed.

Lemma last_n_app_ge n pre l :
  (n <= length l)%nat -> last_n n (pre ++ l) = last_n n l.
Proof.
  intros Hn. unfold last_n. rewrite length_app.
  replace (length pre + length l - n)%nat
    with (length pre + (length l - n))%nat by lia.
  apply drop_app_add'. reflexivity.
Qed.

Lemma last_n_suffix n l : exists pre, l = pre ++ last_n n l.
Proof.
  exists (take (length l - n) l). unfold last_n.
  symmetry. apply take_drop.
Qed.

(** Trimming before or after appending gives the same window. *)
Lemma last_n_last_n_app n l x :
  last_n n (last_n n l ++ x) = last_n n (l ++ x).
Proof.
  destruct (decide (length l <= n)%nat) as [Hle|Hgt].
  - rewrite (last_n_all n l) by assumption. reflexivity.
  - destruct (last_n_suffix n l) as [pre Hpre].
    rewrite Hpre at 2. rewrite <- (assoc_L (++)).
    symmetry. apply last_n_app_ge.
    rewrite length_app, last_n_length. lia.
Qed.
End last_n_facts.

Example splitlines_ex :
  splitlines (lit "a" ++ [13; 10] ++ [10] ++ lit "b c" ++ [10])
  = [lit "a"; []; lit "b c"].
Proof. reflexivity. Qed.

Example re_split_ex :
  re_split_ws2 (lit "Foo Bar   FooBar.App   1.0   2.0")
  = [lit "Foo Bar"; lit "FooBar.App"; lit "1.0"; lit "2.0"].
Proof. reflexivity. Qed.

(** The table of the specification: one row, and none for a line without
    an available version. *)
Example stream_table_ex :
  apps (_stream_winget_upgrades
          (Started (Finished (sample_table 1 ++ lit "Baz   Baz.App   1.0" ++ nl)))
          ui_start 0 40)
  = [{| Id := lit "FooBar.App"; Name := lit "Foo Bar"; Version := lit "1.0";
        Available := lit "2.0" |}].
Proof. reflexivity. Qed.

Example rstrip_ex : rstrip (lit "  a b " ++ [9; 13; 10]) = lit "  a b".
Proof. reflexivity. Qed.

(** ** The rolling log of [run_with_live_output] *)

Lemma log40_window l s : log40 (last_n 40 l) s = last_n 40 (l ++ [s]).
Proof.
  unfold log40. rewrite <- (last_n_last_n_app 40 l [s]).
  destruct (40 <? length (last_n 40 l ++ [s]))%nat eqn:E; [reflexivity|].
  apply Nat.ltb_ge in E. symmetry. apply last_n_all. exact E.
Qed.

Lemma live_lines_cons line ls :
  live_lines (line :: ls)
  = (if nonempty line then [rstrip line] else []) ++ live_lines ls.
Proof. unfold live_lines. simpl. destruct (nonempty line); reflexivity. Qed.

Lemma live_line_read soft_total st line :
  nonempty line = true ->
  live_line soft_total st line
  = {| lv_logs := log40 (lv_logs st) (rstrip line);
       lv_combined := lv_combined st ++ [rstrip line];
       lv_tick := lv_tick st + 1;
       lv_completed :=
         if (lv_tick st + 1 <=? soft_total)%Z then (lv_completed st + 1)%Z
         else lv_completed st |}.
Proof. intros H. unfold live_line. rewrite H. reflexivity. Qed.

Lemma live_line_eof soft_total st line :
  nonempty line = false -> live_line soft_total st line = st.
Proof. intros H. unfold live_line. rewrite H. reflexivity. Qed.

Lemma live_fold soft_total title ls :
  forall st seen,
    lv_logs st = last_n 40 (title :: seen) ->
    lv_combined st = seen ->
    lv_tick st = Z.of_nat (length seen) ->
    lv_completed st = (Z.of_nat (length seen) `min` (0 `max` soft_total))%Z ->
    let st' := fold_left (live_line soft_total) ls st in
    let seen' := seen ++ live_lines ls in
    lv_logs st' = last_n 40 (title :: seen')
    /\ lv_combined st' = seen'
    /\ lv_tick st' = Z.of_nat (length seen')
    /\ lv_completed st' = (Z.of_nat (length seen') `min` (0 `max` soft_total))%Z.
Proof.
  induction ls as [|line ls IH]; intros st seen Hl Hc Ht Hp.
  - cbn. rewrite (right_id_L [] (++)). auto.
  - cbn [fold_left]. cbv zeta. rewrite live_lines_cons.
    destruct (nonempty line) eqn:Hne.
    + rewrite (live_line_read _ _ _ Hne), (assoc_L (++)).
      apply IH; cbn [lv_logs lv_combined lv_tick lv_completed].
      * rewrite Hl. apply (log40_window (title :: seen)).
      * rewrite Hc. reflexivity.
      * rewrite Ht, length_app. simpl. lia.
      * rewrite Ht, Hp, length_app. simpl.
        destruct (Z.of_nat (length seen) + 1 <=? soft_total)%Z eqn:E;
          [apply Z.leb_le in E | apply Z.leb_gt in E]; lia.
    + rewrite (live_line_eof _ _ _ Hne). apply IH; assumption.
Qed.

Lemma live_loop_spec title soft_total p :
  let st := live_loop title soft_total p in
  let seen := live_lines (stdout_lines p) in
  lv_logs st = last_n 40 (title :: seen)
  /\ lv_combined st = seen
  /\ lv_tick st = Z.of_nat (length seen)
  /\ lv_completed st = (Z.of_nat (length seen) `min` (0 `max` soft_total))%Z.
Proof.
  unfold live_loop.
  apply (live_fold soft_total title (stdout_lines p) (live_start title) []);
    simpl; try reflexivity.
  lia.
Qed.

(** ** The log of the health check and its panel *)

Lemma log_inv_window all u : log_inv all u -> last_n 20 (logs u) = last_n 20 all.
Proof.
  intros [[pre ->] Hlen]. rewrite length_app in Hlen.
  destruct (decide (20 <= length (logs u))%nat) as [H|H].
  - symmetry. apply last_n_app_ge. exact H.
  - assert (pre = []) as ->
      by (destruct pre; [reflexivity | cbn [length] in Hlen; lia]).
    reflexivity.
Qed.

Lemma do_log_inv all u c :
  log_inv all u ->
  log_inv (all ++ [log_text c]) (do_log u c)
  /\ panel (do_log u c) = last_n 20 (logs (do_log u c)).
Proof.
  intros [[pre ->] Hlen]. rewrite length_app in Hlen.
  unfold log_inv.
  destruct c as [s|s];
    cbn [do_log log_plain log_evict render set_logs logs panel log_text];
    unfold evict20.
  - split; [|reflexivity]. split.
    + exists pre. rewrite <- (assoc_L (++)). reflexivity.
    + rewrite !length_app. cbn [length]. lia.
  - split; [|reflexivity].
    destruct (20 <? length (logs u ++ [s]))%nat eqn:E.
    + apply Nat.ltb_lt in E. rewrite length_app in E. cbn [length] in E.
      destruct (logs u) as [|x l'] eqn:El; [cbn [length] in E; lia|].
      cbn [length List.app tail] in *. split.
      * exists (pre ++ [x]). rewrite <- !(assoc_L (++)). reflexivity.
      * rewrite !length_app. cbn [length]. lia.
    + apply Nat.ltb_ge in E. rewrite length_app in E. cbn [length] in E.
      split.
      * exists pre. rewrite <- (assoc_L (++)). reflexivity.
      * rewrite !length_app. cbn [length]. lia.
Qed.

Lemma do_logs_inv calls :
  forall all u,
    log_inv all u ->
    log_inv (all ++ (log_text <$> calls)) (fold_left do_log calls u)
    /\ (calls <> [] ->
        panel (fold_left do_log calls u)
        = last_n 20 (logs (fold_left do_log calls u))).
Proof.
  induction calls as [|c calls IH] using rev_ind; intros all u Hinv.
  - simpl. rewrite (right_id_L [] (++)). split; [assumption | congruence].
  - rewrite fold_left_app, fmap_app, (assoc_L (++)). simpl.
    destruct (IH all u Hinv) as [Hinv' _].
    destruct (do_log_inv _ _ c Hinv') as [H1 H2].
    split; [exact H1 | intros _; exact H2].
Qed.

(** C2, at the health check.  When winget prints the head of its table and
    sixteen rows, the list [logs] holds twenty-two entries at the end of
    [health_check], two more than the capacity of twenty, while the panel
    shows twenty lines: the entries appended without the
    [if len(logs) > 20: logs.pop(0)] that follows the other appends are
    never made up for, [pop(0)] removing one entry at a time. *)
Theorem C2_health_logs_exceed_20 :
  let u :=
    h_ui (health_check (Started (Finished (sample_table 16))) (lit "0.0 B")) in
  length (logs u) = 22%nat /\ length (panel u) = 20%nat.
Proof. split; vm_compute; reflexivity. Qed.

(** The two windows.  In [run_with_live_output] the list [logs] is, after
    every append, the last forty of the lines appended (the title first),
    hence never longer than forty and of length forty once more than forty
    were appended.  After any sequence of appends of either idiom of the
    health check, the panel shows the last twenty of the lines appended, in
    order: never more than twenty lines, exactly twenty once more than
    twenty were appended. *)
Theorem rolling_log_windows :
  (forall title soft_total p,
     let appended := title :: live_lines (stdout_lines p) in
     let l := lv_logs (live_loop title soft_total p) in
     l = last_n 40 appended
     /\ (length l <= 40)%nat
     /\ ((40 < length appended)%nat -> length l = 40%nat))
  /\ (forall calls,
        calls <> [] ->
        let shown := panel (fold_left do_log calls ui_start) in
        shown = last_n 20 (log_text <$> calls)
        /\ (length shown <= 20)%nat
        /\ ((20 < length calls)%nat -> length shown = 20%nat)).
Proof.
  split.
  - intros title soft_total p appended l.
    destruct (live_loop_spec title soft_total p) as [Hl _].
    fold appended in Hl. subst l. rewrite Hl, last_n_length.
    split; [reflexivity | lia].
  - intros calls Hne shown.
    assert (log_inv [] ui_start) as Hinv
      by (split; [exists []; reflexivity | simpl; lia]).
    destruct (do_logs_inv calls [] ui_start Hinv) as [Hinv' Hp].
    simpl in Hinv'. subst shown.
    rewrite (Hp Hne), (log_inv_window _ _ Hinv'), last_n_length, length_fmap.
    split; [reflexivity | lia].
Qed.

Lemma rolling_log_windows_ex :
  let calls := replicate 25 (AppendEvict (lit "x")) ++ [Append (lit "y")] in
  calls <> [] /\ (20 < length calls)%nat
  /\ length (panel (fold_left do_log calls ui_start)) = 20%nat.
Proof.
  intros calls.
  assert (calls <> []) as H1 by discriminate.
  assert (20 < length calls)%nat as H2 by (vm_compute; lia).
  split; [exact H1|]. split; [exact H2|].
  exact (proj2 (proj2 (proj2 rolling_log_windows calls H1)) H2).
Defined.

(** ** Exit codes and commands that are not found *)

(** C5, as stated, fails: a missing return code becomes [0], which is not a
    non-zero sentinel, and negative ones ([-9] and [-15], processes ended by a
    signal) are returned as they are, not replaced by one value. *)
Lemma C5_missing_code_is_zero :
  let run rc :=
    run_with_live_output [lit "tool"] (lit "Tool") 100
      (Started {| stdout_lines := []; returncode := rc |}) in
  (run None).1 = 0%Z
  /\ (run (Some (-9)%Z)).1 = (-9)%Z
  /\ (run (Some (-15)%Z)).1 = (-15)%Z.
Proof. repeat split; reflexivity. Qed.

(** C5, amended.  The exit code [run_with_live_output] returns for a
    process that started is the return code of the process, the negative
    ones included; a missing code becomes [0]. *)
Theorem C5_exit_code cmd title soft_total p :
  (run_with_live_output cmd title soft_total (Started p)).1
  = match returncode p with Some z => z | None => 0%Z end.
Proof.
  unfold run_with_live_output, returncode_or_0. simpl.
  destruct (returncode p) as [z|]; [|reflexivity].
  destruct (z =? 0)%Z eqn:E; [|reflexivity].
  apply Z.eqb_eq in E. congruence.
Qed.

(** C6, as stated, fails for an executable that is found but cannot be
    started: [Popen] raises [PermissionError], which
    [except FileNotFoundError] does not catch, and the exception leaves
    [run_with_live_output] and [_stream_winget_upgrades]: no exit code and
    no list of rows reaches the caller. *)
Lemma C6_found_but_not_startable_raises :
  run_with_live_output_spawn [lit "/etc/hostname"] (lit "Updating") 100
    OtherOSError = None
  /\ _stream_winget_upgrades_spawn OtherOSError ui_start 0 40 = None.
Proof. split; reflexivity. Qed.

(** C6, amended.  When [Popen] does not find the executable
    ([FileNotFoundError]), [run_with_live_output] returns exit code 127 and
    only its own message, whatever the command; its callers
    [ensure_pswindowsupdate_installed] and [_ps_get_updates] turn that code
    into [False] and into an empty list of rows;
    [_stream_winget_upgrades] logs that winget was not found and returns
    no row, having killed nothing and written no progress; and
    [_scan_windows_updates_quiet] logs that PowerShell was not found, sets
    the progress to the end of the phase and returns no row.  Each of them
    returns: nothing is raised.
    When the executable is found and cannot be started, [Popen] raises
    another [OSError], which none of the three functions catches: it
    reaches the caller. *)
Theorem C6_command_not_found :
  (forall cmd title soft_total,
     run_with_live_output_spawn cmd title soft_total (Popen FileNotFoundError)
     = Some (127%Z, lit "Command not found: " ++ List.hd [] cmd))
  /\ (forall ps, ensure_pswindowsupdate_installed ps FileNotFoundError = false)
  /\ (forall ps_prepare ps_scan other decoded,
        _ps_get_updates ps_prepare ps_scan
          {| os_prepare := FileNotFoundError; os_scan := other;
             scan_decoded := decoded |} = Some []
        /\ _ps_get_updates ps_prepare ps_scan
             {| os_prepare := other; os_scan := FileNotFoundError;
                scan_decoded := decoded |} = Some [])
  /\ (forall u ps pe,
        exists st,
          _stream_winget_upgrades_spawn (Popen FileNotFoundError) u ps pe
          = Some st
          /\ apps st = [] /\ killed st = false
          /\ writes (st_ui st) = writes u
          /\ logs (st_ui st)
             = logs u
                 ++ [lit "winget not found (install App Installer from Microsoft Store)."])
  /\ (forall decoded err u ps pe,
        exists u',
          _scan_windows_updates_quiet_spawn (Popen FileNotFoundError)
            decoded err u ps pe = Some (u', Some [])
          /\ writes u' = writes u ++ [pe]
          /\ logs u' = logs u ++ [lit "PowerShell not found."])
  /\ (forall cmd title soft_total decoded err u ps pe,
        run_with_live_output_spawn cmd title soft_total OtherOSError = None
        /\ _stream_winget_upgrades_spawn OtherOSError u ps pe = None
        /\ _scan_windows_updates_quiet_spawn OtherOSError decoded err u ps pe
           = None).
Proof.
  split; [reflexivity|].
  split; [reflexivity|].
  split.
  { intros ps_prepare ps_scan other decoded. split; [reflexivity|].
    unfold _ps_get_updates. cbn [os_prepare os_scan scan_decoded].
    destruct (ensure_pswindowsupdate_installed ps_prepare other);
      reflexivity. }
  split.
  { intros u ps pe. eexists. split; [reflexivity|].
    repeat split; reflexivity. }
  split.
  { intros decoded err u ps pe. eexists. split; [reflexivity|].
    split; reflexivity. }
  intros. repeat split; reflexivity.
Qed.

(** ** Progress within a phase *)

Section phase_progress.
Local Open Scope Q_scope.

(** The step of a phase divided into [n] events is not negative. *)
Lemma step_nonneg (ps pe n : Q) : ps <= pe -> 0 <= n -> 0 <= (pe - ps) / n.
Proof.
  intros Hle Hn. unfold Qdiv. apply Qmult_le_0_compat.
  - unfold Qminus. apply -> Qle_minus_iff. exact Hle.
  - apply Qinv_le_0_compat. exact Hn.
Qed.

(** One more step from a value inside the phase: not lower than the
    value, not higher than the end. *)
Lemma next_pct_bounds (pe cur step : Q) :
  cur <= pe -> 0 <= step ->
  cur <= Qmin pe (cur + step) /\ Qmin pe (cur + step) <= pe.
Proof.
  intros Hc Hs. split; [|apply Q.le_min_l].
  apply Q.min_glb; [exact Hc|].
  rewrite <- (Qplus_0_r cur) at 1.
  apply Qplus_le_compat; [apply Qle_refl | exact Hs].
Qed.

Lemma Sorted_snoc (l : list Q) (a b : Q) :
  Sorted Qle (l ++ [a]) -> a <= b -> Sorted Qle (l ++ [a; b]).
Proof.
  intros Hs Hab. induction l as [|x l IH]; simpl in *.
  - repeat constructor. exact Hab.
  - inversion Hs as [|? ? Hs' Hhd]; subst. constructor.
    + apply IH. exact Hs'.
    + destruct l; simpl in *; inversion Hhd; subst; constructor; assumption.
Qed.

(** The value [cur] of the invariant: the entry value when nothing was
    written, otherwise the last value written, which is within the
    phase. *)
Lemma last_written (start pe cur : Q) (ws : list Q) :
  last (start :: ws) = Some cur ->
  Forall (fun q => q <= pe) ws ->
  (ws = [] /\ cur = start) \/ (cur <= pe /\ exists l, ws = (l ++ [cur])%list).
Proof.
  intros Hl Hb. rewrite last_cons in Hl.
  destruct (last ws) as [x|] eqn:E.
  - right. injection Hl as ->. apply last_Some in E as [l ->].
    split; [|exists l; reflexivity].
    apply Forall_app in Hb as [_ Hb]. inversion Hb; assumption.
  - left. apply last_None in E. split; [exact E | congruence].
Qed.

Lemma phase_inv_start w0 start pe : phase_inv w0 start pe w0 start.
Proof.
  exists []. rewrite (right_id_L [] (++)%list).
  repeat split; repeat constructor.
Qed.

Lemma phase_inv_write w0 start pe w cur q :
  phase_inv w0 start pe w cur -> q <= pe -> (cur <= pe -> cur <= q) ->
  phase_inv w0 start pe (w ++ [q]) q.
Proof.
  intros (ws & -> & Hs & Hb & Hl & Hst) Hqe Hq.
  exists (ws ++ [q])%list. split; [symmetry; apply (assoc_L (++)%list)|].
  destruct (last_written _ _ _ _ Hl Hb) as [[-> ->]|[Hc [l ->]]].
  - split; [repeat constructor|]. split; [repeat constructor; exact Hqe|].
    split; [reflexivity|]. intros H. repeat constructor. apply Hq, H.
  - split; [rewrite <- (assoc_L (++)%list); apply Sorted_snoc; auto|].
    split; [apply Forall_app; split; [exact Hb | repeat constructor; exact Hqe]|].
    split; [change (last ((start :: l ++ [cur]) ++ [q]) = Some q);
            apply last_snoc|].
    intros H. rewrite <- (assoc_L (++)%list).
    apply (Sorted_snoc (start :: l)); [apply (Hst H) | auto].
Qed.
End phase_progress.

Section phases.
Local Open Scope Q_scope.
Variables phase_start phase_end : Q.
Hypothesis range : phase_start <= phase_end.

(** A step of [1/n] of the phase from [cur]. *)
Lemma phase_inv_step w0 start w cur n :
  0 <= n ->
  phase_inv w0 start phase_end w cur ->
  let q := Qmin phase_end (cur + (phase_end - phase_start) / n) in
  phase_inv w0 start phase_end (w ++ [q]) q.
Proof.
  intros Hn Hinv q. apply (phase_inv_write _ _ _ _ cur); [exact Hinv | |].
  - apply Q.le_min_l.
  - intros Hc. apply next_pct_bounds; [exact Hc|].
    apply step_nonneg; [exact range | exact Hn].
Qed.

(** Closing the phase: the write of [phase_end]. *)
Lemma phase_inv_finish w0 start w cur :
  phase_inv w0 start phase_end w cur ->
  exists ws,
    (w ++ [phase_end] = w0 ++ ws)%list
    /\ Sorted Qle ws
    /\ Forall (fun q => q <= phase_end) ws
    /\ (start <= phase_end -> Sorted Qle (start :: ws))
    /\ last ws = Some phase_end.
Proof.
  intros Hinv.
  destruct (phase_inv_write _ _ _ _ _ phase_end Hinv)
    as (ws & E & Hs & Hb & _ & Hst); [apply Qle_refl | auto |].
  destruct Hinv as (ws0 & -> & _).
  rewrite <- (assoc_L (++)%list) in E. apply app_inv_head in E. subst ws.
  exists (ws0 ++ [phase_end])%list.
  split; [symmetry; apply (assoc_L (++)%list)|].
  split; [exact Hs|]. split; [exact Hb|]. split; [exact Hst|].
  apply last_snoc.
Qed.

Lemma phase_inv_open w0 start w cur :
  phase_inv w0 start phase_end w cur ->
  exists ws,
    (w = w0 ++ ws)%list
    /\ Sorted Qle ws
    /\ Forall (fun q => q <= phase_end) ws
    /\ (start <= phase_end -> Sorted Qle (start :: ws)).
Proof. intros (ws & E & Hs & Hb & _ & Hst). exists ws. auto. Qed.

(** *** [_stream_winget_upgrades] *)

Lemma bump_inv u0 st :
  stream_inv phase_start phase_end u0 st ->
  stream_inv phase_start phase_end u0 (_bump phase_start phase_end st).
Proof.
  intros Hinv. unfold stream_inv, _bump. cbn.
  apply (phase_inv_step _ _ _ _ 50); [discriminate | exact Hinv].
Qed.

Lemma stream_line_inv u0 st line :
  stream_inv phase_start phase_end u0 st ->
  stream_inv phase_start phase_end u0
    (stream_line phase_start phase_end st line).
Proof.
  intros Hinv. unfold stream_line.
  split_branches; first [exact Hinv | apply bump_inv; exact Hinv].
Qed.

Lemma stream_fold_inv u0 lines :
  forall st,
    stream_inv phase_start phase_end u0 st ->
    stream_inv phase_start phase_end u0
      (fold_left (stream_line phase_start phase_end) lines st).
Proof.
  induction lines as [|line lines IH]; intros st Hinv; [exact Hinv|].
  simpl. apply IH, stream_line_inv, Hinv.
Qed.

Lemma stream_progress os u :
  exists ws,
    (writes (st_ui (_stream_winget_upgrades os u phase_start phase_end))
     = writes u ++ ws)%list
    /\ Sorted Qle (phase_start :: ws)
    /\ Forall (fun q => q <= phase_end) ws
    /\ (os <> FileNotFoundError -> last ws = Some phase_end).
Proof.
  assert (forall s, stream_inv phase_start phase_end u
                      (stream_start phase_start (log_plain s u)))
    as Hstart by (intros s; apply phase_inv_start).
  destruct os as [|[partial|out]].
  - exists []. cbn. rewrite (right_id_L [] (++)%list).
    split; [reflexivity|]. split; [repeat constructor|].
    split; [constructor | congruence].
  - destruct (phase_inv_finish _ _ _ _
                (Hstart (lit "Checking for app updates" ++ [8230%N])%list))
      as (ws & E & _ & Hb & Hs & Hl).
    exists ws. split; [exact E|]. auto.
  - destruct (phase_inv_finish _ _ _ _
                (stream_fold_inv u (splitlines out) _
                   (Hstart (lit "Checking for app updates" ++ [8230%N])%list)))
      as (ws & E & _ & Hb & Hs & Hl).
    exists ws. split; [exact E|]. auto.
Qed.

(** *** [_scan_windows_updates_quiet] *)

Lemma quiet_bumps_inv u0 items :
  forall u,
    quiet_inv phase_end u0 u ->
    quiet_inv phase_end u0 (quiet_bumps phase_start phase_end items u).1.
Proof.
  induction items as [|it items IH]; intros u Hinv; [exact Hinv|].
  cbn [quiet_bumps]. destruct (quiet_title (Title it)) as [title|];
    [|exact Hinv].
  apply IH. unfold quiet_inv. cbn.
  apply (phase_inv_step _ _ _ _ 40); [discriminate | exact Hinv].
Qed.

Lemma quiet_progress w u :
  let r := _scan_windows_updates_quiet w u phase_start phase_end in
  exists ws,
    (writes r.1 = writes u ++ ws)%list
    /\ Sorted Qle ws
    /\ Forall (fun q => q <= phase_end) ws
    /\ (completed u <= phase_end -> Sorted Qle (completed u :: ws))
    /\ (is_Some r.2 -> last ws = Some phase_end).
Proof.
  intros r. subst r.
  assert (quiet_inv phase_end u u) as Hstart by apply phase_inv_start.
  pose proof (fun w0 st w c (H : phase_inv w0 st phase_end w c) =>
                phase_inv_finish w0 st w c H) as Hfin.
  unfold _scan_windows_updates_quiet.
  destruct (uw_proc w) as [|[partial|out]].
  - destruct (Hfin _ _ _ _ Hstart) as (ws & E & Hs & Hb & Hst & Hl).
    exists ws. cbn. auto.
  - destruct (Hfin _ _ _ _ Hstart) as (ws & E & Hs & Hb & Hst & Hl).
    exists ws. cbn. auto.
  - cbv zeta.
    match goal with
    | |- context [let '(items, raised) := ?e in _] =>
        destruct e as [items raised]
    end.
    set (u1 := if raised then _ else _).
    assert (quiet_inv phase_end u u1) as H1
      by (subst u1; destruct raised; exact Hstart).
    assert (quiet_inv phase_end u
              (match items with
               | [] => (log_plain (lit "No Windows updates reported.") u1, false)
               | _ => quiet_bumps phase_start phase_end (take 50 items) u1
               end).1) as H2.
    { destruct items; [exact H1 | apply quiet_bumps_inv, H1]. }
    destruct (match items with [] => _ | _ => _ end) as [u2 raised2].
    cbn [fst] in H2. destruct raised2.
    + destruct (phase_inv_open _ _ _ _ H2) as (ws & E & Hs & Hb & Hst).
      exists ws. cbn. repeat split; try assumption.
      intros [? ?]; discriminate.
    + destruct (Hfin _ _ _ _ H2) as (ws & E & Hs & Hb & Hst & Hl).
      exists ws. cbn. auto.
Qed.
End phases.

(** C1.  For a phase range with [phase_start <= phase_end], the values
    [_stream_winget_upgrades] writes to the progress task, taken in order
    after [phase_start], never decrease and never exceed [phase_end], and
    the last one is [phase_end] itself on every path on which the process
    started (the timeout included).  The values
    [_scan_windows_updates_quiet] writes never decrease nor exceed
    [phase_end] either; they continue the value the task has on entry
    (from which the function steps) when that value is not beyond
    [phase_end]; and the last one is [phase_end] whenever the function
    returns. *)
Theorem C1_progress_monotone (phase_start phase_end : Q) :
  (phase_start <= phase_end)%Q ->
  (forall os u,
     exists ws,
       writes (st_ui (_stream_winget_upgrades os u phase_start phase_end))
       = writes u ++ ws
       /\ Sorted Qle (phase_start :: ws)
       /\ Forall (fun q => q <= phase_end)%Q ws
       /\ (os <> FileNotFoundError -> last ws = Some phase_end))
  /\ (forall w u,
        let r := _scan_windows_updates_quiet w u phase_start phase_end in
        exists ws,
          writes r.1 = writes u ++ ws
          /\ Sorted Qle ws
          /\ Forall (fun q => q <= phase_end)%Q ws
          /\ ((completed u <= phase_end)%Q -> Sorted Qle (completed u :: ws))
          /\ (is_Some r.2 -> last ws = Some phase_end)).
Proof.
  intros range. split.
  - intros os u. apply stream_progress, range.
  - intros w u. apply quiet_progress, range.
Qed.

Lemma C1_progress_monotone_witness :
  (0 <= 40)%Q
  /\ (exists ws,
        writes (st_ui (_stream_winget_upgrades
                         (Started (Finished (sample_table 2))) ui_start 0 40))
        = writes ui_start ++ ws
        /\ Sorted Qle (0%Q :: ws)
        /\ Forall (fun q => q <= 40)%Q ws
        /\ (Started (Finished (sample_table 2)) <> FileNotFoundError ->
            last ws = Some 40%Q))
  /\ (let w := {| uw_proc := Started (TimeoutExpired []);
                  uw_decoded := None; uw_error := [] |} in
      let r := _scan_windows_updates_quiet w ui_start 0 40 in
      exists ws,
        writes r.1 = writes ui_start ++ ws
        /\ Sorted Qle ws
        /\ Forall (fun q => q <= 40)%Q ws
        /\ ((completed ui_start <= 40)%Q -> Sorted Qle (completed ui_start :: ws))
        /\ (is_Some r.2 -> last ws = Some 40%Q)).
Proof.
  assert (0 <= 40)%Q as H by discriminate.
  split; [exact H|]. split.
  - apply (proj1 (C1_progress_monotone 0 40 H)).
  - apply (proj2 (C1_progress_monotone 0 40 H)).
Defined.

(** ** The end of [logs] *)

Lemma evict20_ends l ending :
  (length ending <= 20)%nat ->
  (exists pre, l = pre ++ ending) ->
  exists pre, evict20 l = pre ++ ending.
Proof.
  intros Hlen [pre ->]. unfold evict20.
  destruct (20 <? length (pre ++ ending))%nat eqn:Hlt; [|exists pre; reflexivity].
  apply Nat.ltb_lt in Hlt. rewrite length_app in Hlt.
  destruct pre as [|x pre]; [cbn [length] in Hlt; lia|].
  exists pre. reflexivity.
Qed.

Lemma snoc_ends (l : list str) ending s :
  (exists pre, l = pre ++ ending) ->
  exists pre, l ++ [s] = pre ++ (ending ++ [s]).
Proof. intros [pre ->]. exists pre. symmetry. apply (assoc_L (++)). Qed.

Lemma log_evict_last s u : last (logs (log_evict s u)) = Some s.
Proof.
  cbn [log_evict render set_logs logs].
  destruct (evict20_ends (logs u ++ [s]) [s]) as [pre E];
    [simpl; lia | exists (logs u); reflexivity |].
  rewrite E. apply last_snoc.
Qed.

(** ** The phases of [health_check] *)

(** C3, as stated, fails on a run in which winget prints nothing: the line
    about the disabled Windows updates is in the log, the app phase ends at
    40 (no weight came to it), and the write of 80 spends the share of the
    disabled phase. *)
Lemma C3_disabled_phase_is_logged_and_counted :
  let h := health_check (Started (Finished [])) (lit "0.0 B") in
  In (lit "Windows updates disabled; skipping PowerShell scan.") (logs (h_ui h))
  /\ writes (h_ui h) = [40%Q; 80%Q; 100%Q].
Proof.
  split; [|reflexivity].
  vm_compute. repeat (try (left; reflexivity); right).
Qed.

(** C3, amended.  [health_check] has fixed ranges.  The app scan writes
    values from 0 up to 40; the Windows update scan is not run and reports
    no item, but a line saying so is appended to the log and progress is
    then set to 80, the end of the range that phase had; the junk scan ends
    at 100.  No range is recomputed. *)
Theorem C3_fixed_ranges winget junk :
  let h := health_check winget junk in
  h_os_items h = []
  /\ In (lit "Windows updates disabled; skipping PowerShell scan.")
        (logs (h_ui h))
  /\ (exists ws,
        writes (h_ui h) = ws ++ [80%Q; 100%Q]
        /\ Sorted Qle (0%Q :: ws)
        /\ Forall (fun q => q <= 40)%Q ws)
  /\ completed (h_ui h) = 100%Q.
Proof.
  intros h. split; [reflexivity|]. split; [|split; [|reflexivity]].
  - subst h. unfold health_check. cbv zeta.
    cbn [h_ui logs log_plain log_evict render set_logs update_completed
         update_description].
    match goal with
    | |- In ?m (evict20 ((evict20 (?l ++ [?m]) ++ [?s2]) ++ [?s3]) ++ [?s4]) =>
        assert (exists pre, evict20 (l ++ [m]) = pre ++ [m]) as H1
          by (apply evict20_ends; [simpl; lia | exists l; reflexivity]);
        apply (snoc_ends _ _ s2) in H1; apply (snoc_ends _ _ s3) in H1;
        apply evict20_ends in H1; [|simpl; lia];
        apply (snoc_ends _ _ s4) in H1; destruct H1 as [pre ->]
    end.
    apply in_or_app. right. left. reflexivity.
  - destruct (stream_progress 0 40 ltac:(discriminate) winget
                (log_plain (lit "Preparing winget app scan" ++ [8230])
                   (update_description
                      (lit "Preparing winget app scan" ++ [8230]) ui_start)))
      as (ws & E & Hs & Hb & _).
    exists ws. split; [|auto].
    subst h. unfold health_check. cbv zeta.
    cbn [h_ui writes log_plain log_evict render set_logs update_completed
         update_description].
    rewrite E. cbn. rewrite <- (assoc_L (++)). reflexivity.
Qed.

(** ** Timeouts *)

(** C4, as stated, fails.  When the timeout expires after winget printed a
    table with one row, [_stream_winget_upgrades] returns no row, although
    the same output from a process that ended gives one; and what
    [health_check] gets is what it gets from a process that ended without
    printing anything, so nothing in the result tells that a timeout
    occurred. *)
Lemma C4_timeout_drops_partial_output :
  let partial := sample_table 1 in
  apps (_stream_winget_upgrades (Started (TimeoutExpired partial)) ui_start 0 40)
  = []
  /\ apps (_stream_winget_upgrades (Started (Finished partial)) ui_start 0 40)
     <> []
  /\ h_apps (health_check (Started (TimeoutExpired partial)) (lit "0.0 B"))
     = h_apps (health_check (Started (Finished [])) (lit "0.0 B")).
Proof. split; [reflexivity|]. split; [vm_compute; discriminate | reflexivity]. Qed.

(** C4, amended.  When [communicate] times out, [_stream_winget_upgrades]
    kills the process, appends a line saying so to the log, sets progress
    to the end of the phase and returns an empty list of rows: what the
    process had printed is not read, and the result is the same whatever
    it was.  [health_check] then goes on to the end of the scan with no
    app. *)
Theorem C4_timeout partial :
  (forall u ps pe,
     let st := _stream_winget_upgrades (Started (TimeoutExpired partial)) u ps pe in
     killed st = true
     /\ apps st = []
     /\ last (logs (st_ui st)) = Some (lit "winget scan timed out.")
     /\ writes (st_ui st) = writes u ++ [pe]
     /\ completed (st_ui st) = pe
     /\ st = _stream_winget_upgrades (Started (TimeoutExpired [])) u ps pe)
  /\ (forall junk,
        let h := health_check (Started (TimeoutExpired partial)) junk in
        h_killed h = true
        /\ h_apps h = []
        /\ completed (h_ui h) = 100%Q
        /\ last (logs (h_ui h)) = Some (lit "Scan complete.")).
Proof.
  split.
  - intros u ps pe st. subst st.
    split; [reflexivity|]. split; [reflexivity|].
    split; [apply log_evict_last|]. repeat split; reflexivity.
  - intros junk. repeat split; reflexivity.
Qed.

(** ** One line of the output of winget *)

(** C7, as stated, fails at the header of the table: the run reads one
    line, yet nothing but the announcement of the scan is in the log and
    the only write to the progress task is the closing one.  A blank line
    is counted but not logged. *)
Lemma C7_header_neither_logged_nor_counted :
  let run out :=
    st_ui (_stream_winget_upgrades (Started (Finished out)) ui_start 0 40) in
  logs (run sample_header) = [lit "Checking for app updates" ++ [8230]]
  /\ writes (run sample_header) = [40%Q]
  /\ logs (run nl) = [lit "Checking for app updates" ++ [8230]]
  /\ length (writes (run nl)) = 2%nat.
Proof. repeat split; reflexivity. Qed.

Lemma stream_line_cases ps pe st line :
  let l := rstrip line in
  let st' := stream_line ps pe st line in
  if header_or_separator st l then
    st_ui st' = st_ui st /\ apps st' = apps st
  else
    writes (st_ui st')
    = writes (st_ui st) ++ [Qmin pe (current_pct st + (pe - ps) / 50)%Q]
    /\ (l = [] \/ header_seen st && sep_seen st = false ->
        logs (st_ui st') = logs (st_ui st) /\ apps st' = apps st)
    /\ (l <> [] -> header_seen st && sep_seen st = true ->
        match re_split_ws2 (strip l) with
        | name :: pid :: ver :: avail :: _ =>
            if lower_startswith_no pid || lower_startswith_no name then
              logs (st_ui st') = logs (st_ui st) /\ apps st' = apps st
            else
              let a := {| Id := pid; Name := name; Version := ver;
                          Available := avail |} in
              logs (st_ui st')
              = evict20 (logs (st_ui st) ++ [found_message a])
              /\ apps st' = apps st ++ [a]
        | _ =>
            logs (st_ui st') = evict20 (logs (st_ui st) ++ [l])
            /\ apps st' = apps st
        end).
Proof.
  intros l st'. subst st'. unfold stream_line, header_or_separator. fold l.
  destruct l as [|c l'] eqn:El.
  { cbn. split; [reflexivity|]. split; [auto | congruence]. }
  rewrite <- El. replace (nonempty l) with true by (rewrite El; reflexivity).
  cbn [negb andb].
  destruct (match_header l); [cbn; auto|].
  destruct (header_seen st && match_dashes l); [cbn; auto|].
  cbn [orb].
  destruct (header_seen st) eqn:Hh, (sep_seen st) eqn:Hs; cbn [negb orb andb];
    try (cbn; split; [reflexivity|]; split; [auto | discriminate]).
  split; [|split].
  - destruct (re_split_ws2 (strip l)) as [|name [|pid [|ver [|avail rest]]]];
      try reflexivity.
    destruct (lower_startswith_no pid || lower_startswith_no name);
      reflexivity.
  - intros [E | E]; [rewrite El in E|]; discriminate.
  - intros _ _.
    destruct (re_split_ws2 (strip l)) as [|name [|pid [|ver [|avail rest]]]];
      try (split; reflexivity).
    destruct (lower_startswith_no pid || lower_startswith_no name);
      split; reflexivity.
Qed.

(** C7, amended.  [run_with_live_output] appends every line it reads, blank
    ones included, stripped on the right, to the combined output and to
    the rolling log, and advances progress by one per line for the first
    [soft_total] lines; it parses no row.  [_stream_winget_upgrades] takes
    the header and the separator of the table silently: no log entry, no
    progress, no row.  For every other line it steps progress once, clamped
    to the end of the phase.  Of these lines, a blank one and one read
    before the head of the table is complete add nothing to the log and no
    row.  After the head, a line of four fields or more whose name or
    identifier begins with [no ] adds nothing either; any other line of
    four fields or more adds its row and the entry [Found: ...] made of
    the row; a line of fewer fields adds itself, stripped on the right, and
    no row.  An entry is appended with the oldest one taken off when the
    list has more than twenty. *)
Theorem C7_line_handling :
  (forall title soft_total p,
     let st := live_loop title soft_total p in
     let ls := live_lines (stdout_lines p) in
     lv_combined st = ls
     /\ lv_logs st = last_n 40 (title :: ls)
     /\ lv_completed st = (Z.of_nat (length ls) `min` (0 `max` soft_total))%Z)
  /\ (forall ps pe st line,
        let l := rstrip line in
        let st' := stream_line ps pe st line in
        if header_or_separator st l then
          st_ui st' = st_ui st /\ apps st' = apps st
        else
          writes (st_ui st')
          = writes (st_ui st) ++ [Qmin pe (current_pct st + (pe - ps) / 50)%Q]
          /\ (l = [] \/ header_seen st && sep_seen st = false ->
              logs (st_ui st') = logs (st_ui st) /\ apps st' = apps st)
          /\ (l <> [] -> header_seen st && sep_seen st = true ->
              match re_split_ws2 (strip l) with
              | name :: pid :: ver :: avail :: _ =>
                  if lower_startswith_no pid || lower_startswith_no name then
                    logs (st_ui st') = logs (st_ui st) /\ apps st' = apps st
                  else
                    let a := {| Id := pid; Name := name; Version := ver;
                                Available := avail |} in
                    logs (st_ui st')
                    = evict20 (logs (st_ui st) ++ [found_message a])
                    /\ apps st' = apps st ++ [a]
              | _ =>
                  logs (st_ui st') = evict20 (logs (st_ui st) ++ [l])
                  /\ apps st' = apps st
              end)).
Proof.
  split.
  - intros title soft_total p st ls.
    destruct (live_loop_spec title soft_total p) as (Hl & Hc & _ & Hp).
    auto.
  - apply stream_line_cases.
Qed.

Lemma C7_line_handling_witness :
  let st :=
    {| st_ui := ui_start; apps := []; header_seen := true; sep_seen := true;
       current_pct := 0; killed := false |} in
  let a :=
    {| Id := lit "FooBar.App"; Name := lit "Foo Bar"; Version := lit "1.0";
       Available := lit "2.0" |} in
  (let st' := stream_line 0 40 st nl in
   logs (st_ui st') = [] /\ apps st' = [])
  /\ (let st' := stream_line 0 40 st sample_row in
      logs (st_ui st')
      = [lit "Found: Foo Bar (FooBar.App) 1.0 " ++ [8594] ++ lit " 2.0"]
      /\ apps st' = [a])
  /\ (let st' := stream_line 0 40 st (lit "2 upgrades available." ++ nl) in
      logs (st_ui st') = [lit "2 upgrades available."] /\ apps st' = []).
Proof.
  intros st a. split; [|split].
  - pose proof (proj2 C7_line_handling 0%Q 40%Q st nl) as H.
    cbv zeta in H.
    change (header_or_separator st (rstrip nl)) with false in H.
    destruct H as (_ & H & _). apply H. left. reflexivity.
  - pose proof (proj2 C7_line_handling 0%Q 40%Q st sample_row) as H.
    cbv zeta in H.
    change (header_or_separator st (rstrip sample_row)) with false in H.
    destruct H as (_ & _ & H).
    specialize (H ltac:(vm_compute; discriminate) eq_refl).
    vm_compute in H. vm_compute. exact H.
  - pose proof (proj2 C7_line_handling 0%Q 40%Q st
                  (lit "2 upgrades available." ++ nl)) as H.
    cbv zeta in H.
    change (header_or_separator st
              (rstrip (lit "2 upgrades available." ++ nl))) with false in H.
    destruct H as (_ & _ & H).
    specialize (H ltac:(vm_compute; discriminate) eq_refl).
    vm_compute in H. vm_compute. exact H.
Defined.

(** ** The gate of the table parser *)

Lemma gate_inv_keep pre st st' l :
  gate_inv pre st ->
  header_seen st' = header_seen st -> sep_seen st' = sep_seen st ->
  gate_inv (pre ++ [l]) st'.
Proof.
  intros [Hh Hs] Eh Es. unfold gate_inv. rewrite Eh, Es. split.
  - intros H. destruct (Hh H) as (a & h & b & -> & Hm).
    exists a, h, (b ++ [l]). split; [|exact Hm].
    rewrite <- (assoc_L (++)). reflexivity.
  - intros H. destruct (Hs H) as (a & h & b & s & c & -> & Hm & Hd).
    exists a, h, b, s, (c ++ [l]). split; [|auto].
    rewrite <- !(assoc_L (++)). cbn. rewrite <- (assoc_L (++)). reflexivity.
Qed.

Lemma stream_line_gate ps pe pre st l :
  gate_inv pre st -> gate_inv (pre ++ [l]) (stream_line ps pe st l).
Proof.
  intros Hinv. unfold stream_line.
  destruct (negb (nonempty (rstrip l)));
    [apply (gate_inv_keep _ st); auto|].
  destruct (match_header (rstrip l)) eqn:Hhead.
  { split; cbn; [|discriminate].
    intros _. exists pre, l, []. auto. }
  destruct (header_seen st && match_dashes (rstrip l)) eqn:Hsep.
  { apply andb_true_iff in Hsep as [Hseen Hdash]. split; cbn.
    - intros _. destruct (proj1 Hinv Hseen) as (a & h & b & -> & Hm).
      exists a, h, (b ++ [l]). split; [|exact Hm].
      rewrite <- (assoc_L (++)). reflexivity.
    - intros _. destruct (proj1 Hinv Hseen) as (a & h & b & -> & Hm).
      exists a, h, b, l, []. split; [|auto].
      rewrite <- (assoc_L (++)). reflexivity. }
  split_branches; apply (gate_inv_keep _ st); auto.
Qed.

Lemma stream_fold_gate ps pe u pre :
  gate_inv pre (fold_left (stream_line ps pe) pre (stream_start ps u)).
Proof.
  induction pre as [|l pre IH] using rev_ind.
  - split; cbn; discriminate.
  - rewrite fold_left_app. cbn [fold_left]. apply stream_line_gate, IH.
Qed.

(** A line adds a row only when both flags are set. *)
Lemma stream_line_row ps pe st l :
  apps (stream_line ps pe st l) <> apps st ->
  header_seen st = true /\ sep_seen st = true.
Proof.
  unfold stream_line.
  destruct (negb (nonempty (rstrip l))); [cbn; congruence|].
  destruct (match_header (rstrip l)); [cbn; congruence|].
  destruct (header_seen st && match_dashes (rstrip l)); [cbn; congruence|].
  destruct (header_seen st), (sep_seen st); cbn; try congruence. auto.
Qed.

Lemma table_rows_fold lines :
  forall rows,
    fold_left
      (fun rows line =>
         match table_line line with Some r => rows ++ [r] | None => rows end)
      lines rows
    = rows ++ omap table_line lines.
Proof.
  induction lines as [|l lines IH]; intros rows; cbn.
  - symmetry. apply (right_id_L [] (++)).
  - rewrite IH. destruct (table_line l); [|reflexivity].
    rewrite <- (assoc_L (++)). reflexivity.
Qed.

(** C8, as stated, fails in the table fallback of [winget_list_upgrades]:
    a line that comes before any header or separator is parsed into a
    row. *)
Lemma C8_table_fallback_has_no_gate :
  let w := {| ensure_ok := true; exe := lit "winget"; help_stdout := [];
              json_decoded := None;
              table_stdout := sample_row ++ nl ++ sample_table 0 |} in
  (winget_list_upgrades w).2
  = [mkWingetApp (JStr (lit "FooBar.App")) (JStr (lit "Foo Bar"))
       (JStr (lit "1.0")) (JStr (lit "2.0"))].
Proof. reflexivity. Qed.

Lemma stream_line_no_header ps pe st l :
  match_header (rstrip l) = false ->
  header_seen st = false ->
  header_seen (stream_line ps pe st l) = false
  /\ apps (stream_line ps pe st l) = apps st.
Proof.
  intros Hl Hst. unfold stream_line. rewrite Hl, Hst. cbn [andb negb orb].
  destruct (negb (nonempty (rstrip l))); cbn; auto.
Qed.

Lemma stream_fold_no_header ps pe lines :
  Forall (fun l => match_header (rstrip l) = false) lines ->
  forall st,
    header_seen st = false ->
    apps (fold_left (stream_line ps pe) lines st) = apps st.
Proof.
  induction 1 as [|l lines Hl _ IH]; intros st Hst; [reflexivity|].
  cbn [fold_left].
  destruct (stream_line_no_header ps pe st l Hl Hst) as [Hst' Happs].
  rewrite (IH _ Hst'). exact Happs.
Qed.

(** C8, amended.  In [_stream_winget_upgrades] a line adds a row only if a
    header line and, after it, a separator line are among the lines read
    before it; in particular an output without a header line gives no row.
    The table fallback of [winget_list_upgrades] has no such gate: it skips
    the lines that begin with [Name] or [---] and judges every other line
    on its own. *)
Theorem C8_rows_after_header_and_separator :
  (forall ps pe u pre l,
     let run ls := fold_left (stream_line ps pe) ls (stream_start ps u) in
     apps (run (pre ++ [l])) <> apps (run pre) ->
     exists a h b s c,
       pre = a ++ h :: b ++ s :: c
       /\ match_header (rstrip h) = true
       /\ match_dashes (rstrip s) = true)
  /\ (forall ps pe u out,
        Forall (fun l => match_header (rstrip l) = false) (splitlines out) ->
        apps (_stream_winget_upgrades (Started (Finished out)) u ps pe) = [])
  /\ (forall stdout, table_rows stdout = omap table_line (splitlines stdout)).
Proof.
  split; [|split].
  - intros ps pe u pre l run Hrow. subst run. cbv beta in Hrow.
    rewrite fold_left_app in Hrow. cbn [fold_left] in Hrow.
    apply stream_line_row in Hrow as [_ Hsep].
    exact (proj2 (stream_fold_gate ps pe u pre) Hsep).
  - intros ps pe u out Hno. cbn [_stream_winget_upgrades with_ui apps].
    rewrite (stream_fold_no_header ps pe _ Hno); reflexivity.
  - intros stdout. apply (table_rows_fold _ []).
Qed.

Lemma C8_rows_after_header_and_separator_witness :
  (exists a h b s c,
     splitlines (sample_table 0) = a ++ h :: b ++ s :: c
     /\ match_header (rstrip h) = true
     /\ match_dashes (rstrip s) = true)
  /\ apps (_stream_winget_upgrades (Started (Finished (sample_row ++ nl)))
             ui_start 0 40) = [].
Proof.
  split.
  - apply (proj1 C8_rows_after_header_and_separator 0%Q 40%Q ui_start
             (splitlines (sample_table 0)) sample_row).
    vm_compute. discriminate.
  - apply (proj1 (proj2 C8_rows_after_header_and_separator)).
    repeat constructor.
Defined.

(** ** The JSON path of [winget_list_upgrades] *)

Lemma json_loop_all ms :
  Forall (fun m => truthy (app_id (json_row m)) = true
                   /\ truthy (app_available (json_row m)) = true) ms ->
  forall rows, json_loop (JObj <$> ms) rows = Some (rows ++ (json_row <$> ms)).
Proof.
  induction 1 as [|m ms [Hid Hav] _ IH]; intros rows; cbn [fmap list_fmap json_loop].
  - rewrite (right_id_L [] (++)). reflexivity.
  - unfold json_item. rewrite Hid, Hav. cbn [andb].
    rewrite IH, <- (assoc_L (++)). reflexivity.
Qed.

Lemma json_loop_none ms :
  Forall (fun m => truthy (app_id (json_row m))
                   && truthy (app_available (json_row m)) = false) ms ->
  forall rows, json_loop (JObj <$> ms) rows = Some rows.
Proof.
  induction 1 as [|m ms Hno _ IH]; intros rows; cbn [fmap list_fmap json_loop].
  - reflexivity.
  - unfold json_item. rewrite Hno. apply IH.
Qed.

(** Whenever the JSON pass ends with no row, the table fallback decides. *)
Lemma winget_fallback w v :
  ensure_ok w = true ->
  contains (lit "--output") (help_stdout w) = true ->
  json_decoded w = Some v ->
  json_rows v = Some [] ->
  winget_list_upgrades w
  = ([cmd_help w; cmd_json w; cmd_table w], table_rows (table_stdout w)).
Proof.
  intros Hok Hhelp Hdec Hrows. unfold winget_list_upgrades.
  rewrite Hok, Hhelp, Hdec. cbn. rewrite Hrows. reflexivity.
Qed.

(** C9, as stated, fails for the array of no object: the help text offers
    [--output], the JSON output decodes to the empty array, and the rows
    returned are the one the table fallback reads from the second run. *)
Lemma C9_empty_array_gives_table_rows :
  let w := {| ensure_ok := true; exe := lit "winget";
              help_stdout := lit "  -o,--output <format>";
              json_decoded := Some (JArr []);
              table_stdout := sample_table 1 |} in
  length (winget_list_upgrades w).2 = 1%nat.
Proof. reflexivity. Qed.

(** C9, amended.  When the JSON output decodes to an array of one or more
    objects, each with a non-empty identifier and a non-empty available
    version, [winget_list_upgrades] returns exactly one row per object, in
    the order of the array, the row of each object being [json_row] of
    it. *)
Theorem C9_json_rows w ms :
  ensure_ok w = true ->
  contains (lit "--output") (help_stdout w) = true ->
  json_decoded w = Some (JArr (JObj <$> ms)) ->
  ms <> [] ->
  Forall (fun m => truthy (app_id (json_row m)) = true
                   /\ truthy (app_available (json_row m)) = true) ms ->
  (winget_list_upgrades w).2 = json_row <$> ms
  /\ length (winget_list_upgrades w).2 = length ms.
Proof.
  intros Hok Hhelp Hdec Hne Hwf.
  assert ((winget_list_upgrades w).2 = json_row <$> ms) as E.
  { unfold winget_list_upgrades. rewrite Hok, Hhelp, Hdec. cbn.
    rewrite (json_loop_all ms Hwf []). cbn.
    destruct ms as [|m ms']; [congruence | reflexivity]. }
  split; [exact E|]. rewrite E. apply length_fmap.
Qed.

Lemma C9_json_rows_witness :
  let m1 : gmap str json :=
    <[lit "Id" := JStr (lit "Foo.App")]>
      (<[lit "Name" := JStr (lit "Foo")]>
         (<[lit "Version" := JStr (lit "1.0")]>
            (<[lit "Available" := JStr (lit "2.0")]> ∅))) in
  let m2 : gmap str json :=
    <[lit "PackageIdentifier" := JStr (lit "Bar.App")]>
      (<[lit "AvailableVersion" := JStr (lit "3.1")]> ∅) in
  let w := {| ensure_ok := true; exe := lit "winget";
              help_stdout := lit "  -o,--output <format>";
              json_decoded := Some (JArr [JObj m1; JObj m2]);
              table_stdout := [] |} in
  (winget_list_upgrades w).2
  = [mkWingetApp (JStr (lit "Foo.App")) (JStr (lit "Foo")) (JStr (lit "1.0"))
       (JStr (lit "2.0"));
     mkWingetApp (JStr (lit "Bar.App")) (JStr []) (JStr []) (JStr (lit "3.1"))].
Proof.
  intros m1 m2 w.
  refine (eq_trans (proj1 (C9_json_rows w [m1; m2] eq_refl eq_refl eq_refl _ _)) _).
  - discriminate.
  - repeat constructor.
  - reflexivity.
Defined.

(** C10.  When the help text offers [--output], the JSON output decodes to
    an array of objects and none of them has both a non-empty identifier and
    a non-empty available version (the empty array is the first case), the
    function does not return the empty list of the JSON pass: after
    [exe upgrade -?] and [exe upgrade --include-unknown --output json] it
    runs [exe upgrade --include-unknown], the same command once more
    without [--output json], and returns the rows the table heuristic reads
    from that run. *)
Theorem C10_empty_json_falls_back w ms :
  ensure_ok w = true ->
  contains (lit "--output") (help_stdout w) = true ->
  json_decoded w = Some (JArr (JObj <$> ms)) ->
  Forall (fun m => truthy (app_id (json_row m))
                   && truthy (app_available (json_row m)) = false) ms ->
  winget_list_upgrades w
  = ([[exe w; lit "upgrade"; lit "-?"];
      [exe w; lit "upgrade"; lit "--include-unknown"; lit "--output";
       lit "json"];
      [exe w; lit "upgrade"; lit "--include-unknown"]],
     table_rows (table_stdout w)).
Proof.
  intros Hok Hhelp Hdec Hno.
  apply (winget_fallback w _ Hok Hhelp Hdec).
  apply (json_loop_none ms Hno []).
Qed.

Lemma C10_empty_json_falls_back_witness :
  let w := {| ensure_ok := true; exe := lit "winget";
              help_stdout := lit "  -o,--output <format>";
              json_decoded := Some (JArr []);
              table_stdout := sample_table 1 |} in
  winget_list_upgrades w
  = ([[lit "winget"; lit "upgrade"; lit "-?"];
      [lit "winget"; lit "upgrade"; lit "--include-unknown"; lit "--output";
       lit "json"];
      [lit "winget"; lit "upgrade"; lit "--include-unknown"]],
     [mkWingetApp (JStr (lit "FooBar.App")) (JStr (lit "Foo Bar"))
        (JStr (lit "1.0")) (JStr (lit "2.0"))]).
Proof.
  intros w.
  exact (C10_empty_json_falls_back w [] eq_refl eq_refl eq_refl (List.Forall_nil _)).
Defined.

(** * Properties of more of the code *)

(** ** Fields cut out of a line *)

Lemma lstrip_head s :
  match lstrip s with c :: _ => isspace c = false | [] => True end.
Proof.
  induction s as [|c s IH]; simpl; [exact I|].
  destruct (isspace c) eqn:E; [exact IH | simpl; exact E].
Qed.

Lemma lstrip_snoc s c :
  isspace c = false -> exists t, lstrip (s ++ [c]) = t ++ [c].
Proof.
  intros Hc. induction s as [|x s [t IH]]; simpl.
  - rewrite Hc. exists []. reflexivity.
  - destruct (isspace x); [exists t; exact IH|].
    exists (x :: s). reflexivity.
Qed.

Lemma rstrip_trimmed s :
  match s with c :: _ => isspace c = false | [] => True end ->
  trimmed (rstrip s).
Proof.
  intros Hs. unfold rstrip. split.
  - destruct s as [|a t]; [exact I|]. cbn [rev].
    destruct (lstrip_snoc (rev t) a Hs) as [t' ->].
    rewrite rev_app_distr. exact Hs.
  - pose proof (lstrip_head (rev s)) as H.
    destruct (lstrip (rev s)) as [|c y]; [exact I|].
    cbn [rev]. rewrite last_snoc. exact H.
Qed.

Lemma strip_trimmed s : trimmed (strip s).
Proof. apply rstrip_trimmed, lstrip_head. Qed.

Lemma re_split_from_nonempty s :
  forall cur ws,
    cur <> [] ->
    match last s with Some c => isspace c = false | None => ws = [] end ->
    Forall (fun p => p <> []) (re_split_from cur ws s).
Proof.
  assert (forall cur : str, cur <> [] -> rev cur <> []) as Hrev.
  { intros cur Hc E. apply Hc. rewrite <- (rev_involutive cur), E. reflexivity. }
  induction s as [|c s IH]; intros cur ws Hcur Hlast; cbn [re_split_from].
  - cbn in Hlast. subst ws. repeat constructor. apply Hrev, Hcur.
  - assert (match last s with Some c => isspace c = false | None => True end
            /\ (s = [] -> isspace c = false)) as [Hl Hs].
    { destruct s as [|x s']; [cbn in Hlast; cbn; split; auto|].
      rewrite last_cons in Hlast.
      split; [|discriminate].
      destruct (last (x :: s')) eqn:E; [exact Hlast|].
      apply last_None in E. discriminate. }
    assert (forall cur', cur' <> [] ->
              Forall (fun p => p <> []) (re_split_from cur' [] s)) as Hnext.
    { intros cur' Hc'. apply IH; [exact Hc'|].
      revert Hl. destruct (last s); auto. }
    destruct (isspace c) eqn:Ec.
    + apply IH; [exact Hcur|].
      revert Hl. destruct (last s) eqn:E; [auto|]. intros _.
      apply last_None in E. pose proof (Hs E). congruence.
    + destruct ws as [|w1 [|w2 ws']];
        try (apply Hnext; discriminate).
      constructor; [apply Hrev, Hcur | apply Hnext; discriminate].
Qed.

(** The fields [re.split] cuts out of a stripped line are not empty. *)
Lemma re_split_strip_nonempty line :
  strip line = [] \/ Forall (fun p => p <> []) (re_split_ws2 (strip line)).
Proof.
  destruct (strip_trimmed line) as [Hhead Hlast].
  destruct (strip line) as [|a t] eqn:E; [left; reflexivity | right].
  unfold re_split_ws2. cbn [re_split_from]. rewrite Hhead.
  apply re_split_from_nonempty; [discriminate|].
  rewrite last_cons in Hlast. revert Hlast.
  destruct (last t); auto.
Qed.

(** The loops that append at most one row per line. *)
Lemma collect_fold {A B} (f : A -> option B) lines :
  forall rows,
    fold_left
      (fun rows line => match f line with Some r => rows ++ [r] | None => rows end)
      lines rows
    = rows ++ omap f lines.
Proof.
  induction lines as [|l lines IH]; intros rows; cbn.
  - symmetry. apply (right_id_L [] (++)).
  - rewrite IH. destruct (f l); [|reflexivity].
    rewrite <- (assoc_L (++)). reflexivity.
Qed.

Lemma Forall_omap_intro {A B} (f : A -> option B) (P : B -> Prop) lines :
  (forall x r, f x = Some r -> P r) -> Forall P (omap f lines).
Proof.
  intros Hf. induction lines as [|l lines IH]; cbn; [constructor|].
  destruct (f l) as [r|] eqn:E; [constructor; eauto | exact IH].
Qed.

Lemma omap_length_le {A B} (f : A -> option B) lines :
  (length (omap f lines) <= length lines)%nat.
Proof.
  induction lines as [|l lines IH]; cbn; [lia|].
  destruct (f l); cbn; lia.
Qed.

(** ** Rows of [_stream_winget_upgrades] *)

Lemma stream_line_apps ps pe st line (P : app -> Prop) :
  (forall name pid ver avail rest,
     re_split_ws2 (strip (rstrip line)) = name :: pid :: ver :: avail :: rest ->
     lower_startswith_no pid || lower_startswith_no name = false ->
     P {| Id := pid; Name := name; Version := ver; Available := avail |}) ->
  Forall P (apps st) -> Forall P (apps (stream_line ps pe st line)).
Proof.
  intros Hrow Hst. unfold stream_line.
  destruct (negb (nonempty (rstrip line))); [exact Hst|].
  destruct (match_header (rstrip line)); [exact Hst|].
  destruct (header_seen st && match_dashes (rstrip line)); [exact Hst|].
  destruct (negb (header_seen st) || negb (sep_seen st)); [exact Hst|].
  destruct (re_split_ws2 (strip (rstrip line)))
    as [|name [|pid [|ver [|avail rest]]]] eqn:E; try exact Hst.
  destruct (lower_startswith_no pid || lower_startswith_no name) eqn:Hno;
    [exact Hst|].
  cbn. apply Forall_app. split; [exact Hst|].
  repeat constructor. exact (Hrow _ _ _ _ _ eq_refl Hno).
Qed.

Lemma stream_fold_apps ps pe (P : app -> Prop) lines :
  (forall line name pid ver avail rest,
     re_split_ws2 (strip (rstrip line)) = name :: pid :: ver :: avail :: rest ->
     lower_startswith_no pid || lower_startswith_no name = false ->
     P {| Id := pid; Name := name; Version := ver; Available := avail |}) ->
  forall st,
    Forall P (apps st) ->
    Forall P (apps (fold_left (stream_line ps pe) lines st)).
Proof.
  intros Hrow. induction lines as [|l lines IH]; intros st Hst; [exact Hst|].
  cbn [fold_left]. apply IH, stream_line_apps; [apply Hrow | exact Hst].
Qed.

Lemma split_fields_nonempty line (name pid ver : str) rest :
  re_split_ws2 (strip line) = name :: pid :: ver :: rest ->
  name <> [] /\ pid <> [] /\ ver <> [] /\ Forall (fun p => p <> []) rest.
Proof.
  intros E. destruct (re_split_strip_nonempty line) as [H|H].
  - rewrite H in E. discriminate.
  - rewrite E in H.
    apply Forall_cons in H as [H1 H]. apply Forall_cons in H as [H2 H].
    apply Forall_cons in H as [H3 H]. auto.
Qed.

(** X1.  Every row [_stream_winget_upgrades] returns has a non-empty name,
    identifier, installed version and available version, and neither its
    identifier nor its name begins with [no ] in any letter case. *)
Theorem X1_stream_rows_are_complete os u ps pe :
  Forall
    (fun a =>
       Id a <> [] /\ Name a <> [] /\ Version a <> [] /\ Available a <> []
       /\ lower_startswith_no (Id a) = false
       /\ lower_startswith_no (Name a) = false)
    (apps (_stream_winget_upgrades os u ps pe)).
Proof.
  destruct os as [|[partial|out]]; try (cbn; constructor).
  cbn [_stream_winget_upgrades with_ui apps].
  apply stream_fold_apps; [|constructor].
  intros line name pid ver avail rest E Hno. cbn.
  destruct (split_fields_nonempty _ _ _ _ _ E) as (Hn & Hp & Hv & Hrest).
  apply Forall_cons in Hrest as [Ha _].
  apply orb_false_iff in Hno as [Hno1 Hno2]. auto 10.
Qed.

(** ** Rows of [winget_list_upgrades] and of [winget_list_installed] *)

Lemma json_loop_rows (P : WingetApp -> Prop) items :
  (forall m, truthy (app_id (json_row m)) && truthy (app_available (json_row m))
             = true -> P (json_row m)) ->
  forall rows rows',
    Forall P rows -> json_loop items rows = Some rows' -> Forall P rows'.
Proof.
  intros HP. induction items as [|it items IH]; intros rows rows' Hrows E;
    cbn [json_loop] in E.
  - congruence.
  - destruct it as [| | | | |m]; cbn [json_item] in E; try discriminate.
    destruct (truthy (app_id (json_row m))
              && truthy (app_available (json_row m))) eqn:Hok.
    + apply (IH (rows ++ [json_row m]) rows'); [|exact E].
      apply Forall_app. split; [exact Hrows|].
      repeat constructor. apply HP, Hok.
    + exact (IH _ _ Hrows E).
Qed.

Lemma table_line_row line r :
  table_line line = Some r ->
  exists name pid ver avail,
    r = mkWingetApp (JStr pid) (JStr name) (JStr ver) (JStr avail)
    /\ name <> [] /\ pid <> [] /\ ver <> [] /\ avail <> []
    /\ lower_startswith_no pid = false.
Proof.
  unfold table_line. destruct (match_name_or_dashes line); [discriminate|].
  destruct (re_split_ws2 (strip line))
    as [|name [|pid [|ver [|avail rest]]]] eqn:E; try discriminate.
  destruct (nonempty pid && nonempty avail && negb (lower_startswith_no pid))
    eqn:Hok; [|discriminate].
  intros [= <-]. exists name, pid, ver, avail.
  destruct (split_fields_nonempty _ _ _ _ _ E) as (Hn & Hp & Hv & Hrest).
  apply Forall_cons in Hrest as [Ha _].
  apply andb_true_iff in Hok as [_ Hno]. apply negb_true_iff in Hno. auto 10.
Qed.

Lemma table_rows_wellformed (P : WingetApp -> Prop) stdout :
  (forall line r, table_line line = Some r -> P r) ->
  Forall P (table_rows stdout).
Proof.
  intros HP. unfold table_rows. rewrite (collect_fold table_line _ []).
  apply Forall_omap_intro, HP.
Qed.

(** X2.  Whichever path produced them, the rows [winget_list_upgrades]
    returns all have an identifier and an available version that Python
    takes for true (for text: not empty); the function never returns a row
    without one of them. *)
Theorem X2_upgrade_rows_have_id_and_available w :
  Forall (fun r => truthy (app_id r) = true /\ truthy (app_available r) = true)
    (winget_list_upgrades w).2.
Proof.
  assert (Forall (fun r => truthy (app_id r) = true
                           /\ truthy (app_available r) = true)
            (table_rows (table_stdout w))) as Htable.
  { apply table_rows_wellformed. intros line r Hr.
    destruct (table_line_row _ _ Hr)
      as (name & pid & ver & avail & -> & _ & Hp & _ & Ha & _).
    cbn. destruct pid, avail; cbn; try congruence. auto. }
  unfold winget_list_upgrades.
  destruct (negb (ensure_ok w)); [constructor|].
  destruct (contains (lit "--output") (help_stdout w)); [|exact Htable].
  destruct (json_decoded w ≫= json_rows) as [[|r rows]|] eqn:E;
    try exact Htable.
  cbn [snd]. destruct (json_decoded w) as [v|]; [|discriminate]. cbn in E.
  destruct v as [| | |s|l|m]; cbn in E; try discriminate.
  - destruct s; discriminate.
  - apply (json_loop_rows _ l) with (rows := []); [|constructor | exact E].
    intros m Hok. apply andb_true_iff in Hok. exact Hok.
  - destruct (map_to_list m); discriminate.
Qed.

Lemma installed_line_row line r :
  installed_line line = Some r ->
  exists name pid ver,
    r = mkWingetApp (JStr pid) (JStr name) (JStr ver) (JStr [])
    /\ name <> [] /\ pid <> [] /\ ver <> []
    /\ lower_startswith_no pid = false.
Proof.
  unfold installed_line. destruct (match_name_or_dashes line); [discriminate|].
  destruct (re_split_ws2 (strip line)) as [|name [|pid [|ver rest]]] eqn:E;
    try discriminate.
  destruct (nonempty pid && negb (lower_startswith_no pid)) eqn:Hok;
    [|discriminate].
  intros [= <-]. exists name, pid, ver.
  destruct (split_fields_nonempty _ _ _ _ _ E) as (Hn & Hp & Hv & _).
  apply andb_true_iff in Hok as [_ Hno]. apply negb_true_iff in Hno. auto 10.
Qed.

(** X3.  [winget_list_installed] catches [RuntimeError] only: it returns
    no row when [ensure_winget_ready] raises it, and does not return when
    [ensure_winget_ready] fails while opening the Store page, that
    exception reaching the caller.  Otherwise it returns at most one row
    per line of the output; every row has a non-empty identifier that does
    not begin with [no ], a non-empty name and version, and an empty
    available version. *)
Theorem X3_installed_rows ready stdout :
  (ready = StorePageFailed -> winget_list_installed ready stdout = None)
  /\ (ready <> StorePageFailed ->
      exists rows,
        winget_list_installed ready stdout = Some rows
        /\ (ready = NotReady -> rows = [])
        /\ (length rows <= length (splitlines stdout))%nat
        /\ Forall
             (fun r =>
                exists name pid ver,
                  r = mkWingetApp (JStr pid) (JStr name) (JStr ver) (JStr [])
                  /\ name <> [] /\ pid <> [] /\ ver <> []
                  /\ lower_startswith_no pid = false)
             rows).
Proof.
  split; [intros ->; reflexivity|].
  intros Hready. unfold winget_list_installed.
  destruct ready; [| |contradiction].
  - eexists. split; [reflexivity|].
    rewrite (collect_fold installed_line _ []). cbn [List.app].
    split; [discriminate|]. split; [apply omap_length_le|].
    apply Forall_omap_intro, installed_line_row.
  - exists []. split; [reflexivity|]. split; [reflexivity|].
    split; [cbn; lia | constructor].
Qed.

Lemma X3_installed_rows_witness :
  winget_list_installed StorePageFailed (sample_table 3) = None
  /\ exists rows,
       winget_list_installed Ready (sample_table 3) = Some rows
       /\ (length rows <= length (splitlines (sample_table 3)))%nat.
Proof.
  split.
  - apply (proj1 (X3_installed_rows StorePageFailed (sample_table 3))).
    reflexivity.
  - destruct (proj2 (X3_installed_rows Ready (sample_table 3)))
      as (rows & E & _ & Hlen & _); [discriminate|].
    exists rows. split; [exact E | exact Hlen].
Defined.

(** ** The unit [human_bytes] chooses *)

Section human_bytes_facts.
Local Open Scope Q_scope.

Lemma pow1024_pos (k : nat) : 0 < inject_Z (1024 ^ Z.of_nat k).
Proof.
  rewrite <- (Zlt_Qlt 0). apply Z.pow_pos_nonneg; lia.
Qed.

Lemma pow1024_succ (k : nat) :
  inject_Z (1024 ^ Z.of_nat (S k)) == inject_Z (1024 ^ Z.of_nat k) * 1024.
Proof.
  rewrite Nat2Z.inj_succ, Z.pow_succ_r by lia.
  rewrite inject_Z_mult. ring.
Qed.

(** [k] more divisions are made when [f] is at least [1024^k] and either
    the last unit is reached or [f] is below [1024^(k+1)]. *)
Lemma scale_units_steps (k : nat) :
  forall fuel f j,
    (k <= fuel)%nat -> (j + k <= 4)%nat ->
    (k = 0%nat \/ inject_Z (1024 ^ Z.of_nat k) <= f) ->
    ((j + k)%nat = 4%nat \/ f < inject_Z (1024 ^ Z.of_nat (S k))) ->
    exists f',
      f' == f / inject_Z (1024 ^ Z.of_nat k)
      /\ scale_units fuel f j = (f', (j + k)%nat).
Proof.
  induction k as [|k IH]; intros fuel f j Hfuel Hj Hlo Hhi.
  - exists f. split; [change (f == f / 1); field|].
    rewrite Nat.add_0_r in *. destruct fuel as [|fuel]; [reflexivity|].
    cbn [scale_units].
    destruct Hhi as [-> | Hhi]; [rewrite andb_false_r; reflexivity|].
    assert (Qle_bool 1024 f = false) as ->; [|reflexivity].
    apply not_true_is_false. intros H. apply Qle_bool_iff in H.
    apply (Qlt_not_le _ _ Hhi). exact H.
  - destruct fuel as [|fuel]; [lia|]. cbn [scale_units].
    destruct Hlo as [Hlo | Hlo]; [discriminate|].
    pose proof (pow1024_pos k) as Hpos.
    assert (Qle_bool 1024 f = true) as ->.
    { apply Qle_bool_iff. eapply Qle_trans; [|exact Hlo].
      rewrite pow1024_succ. rewrite <- (Qmult_1_l 1024) at 1.
      apply Qmult_le_compat_r; [|discriminate].
      change 1 with (inject_Z 1). rewrite <- Zle_Qle.
      pose proof (Z.pow_pos_nonneg 1024 (Z.of_nat k)). lia. }
    assert ((j <? length units - 1)%nat = true) as ->
      by (apply Nat.ltb_lt; cbn; lia).
    cbn [andb].
    destruct (IH fuel (f / 1024) (S j)) as (f' & Hf' & Hs); try lia.
    + right. apply Qle_shift_div_l; [reflexivity|].
      rewrite <- pow1024_succ. exact Hlo.
    + destruct Hhi as [Hhi | Hhi]; [left; lia | right].
      apply Qlt_shift_div_r; [reflexivity|].
      rewrite <- pow1024_succ. exact Hhi.
    + exists f'. split.
      * rewrite Hf', pow1024_succ. field.
        intros E. rewrite E in Hpos. discriminate.
      * rewrite Hs. f_equal. lia.
Qed.
End human_bytes_facts.

(** X4.  For a size [n] from 0 up to [2^53], the sizes that [float(n)]
    holds exactly, [human_bytes] scales the size by the power of 1024 of
    its range and names the unit of that power: bytes below 1024, then KB,
    MB and GB for [1024^i <= n < 1024^(i+1)], and TB from [1024^4] on.  The
    number printed is the value [n / 1024^i] formatted with one decimal. *)
Theorem X4_human_bytes_unit (n : Z) (i : nat) :
  (0 <= n < 2 ^ 53)%Z ->
  (i <= 4)%nat ->
  (i = 0%nat \/ 1024 ^ Z.of_nat i <= n)%Z ->
  (i = 4%nat \/ n < 1024 ^ Z.of_nat (S i))%Z ->
  exists f,
    (f == inject_Z n / inject_Z (1024 ^ Z.of_nat i))%Q
    /\ human_bytes n = format_1f f ++ lit " " ++ default [] (units !! i).
Proof.
  intros _ Hi Hlo Hhi.
  destruct (scale_units_steps i (length units) (inject_Z n) 0)
    as (f & Hf & Hs).
  - cbn. lia.
  - lia.
  - destruct Hlo as [Hlo | Hlo]; [left; exact Hlo | right].
    rewrite <- Zle_Qle. exact Hlo.
  - destruct Hhi as [Hhi | Hhi]; [left; exact Hhi | right].
    rewrite <- Zlt_Qlt. exact Hhi.
  - exists f. split; [exact Hf|].
    unfold human_bytes. rewrite Hs. reflexivity.
Qed.

Lemma X4_human_bytes_unit_witness :
  exists f,
    (f == inject_Z 1572864 / inject_Z (1024 ^ Z.of_nat 2))%Q
    /\ human_bytes 1572864 = format_1f f ++ lit " " ++ lit "MB".
Proof.
  apply (X4_human_bytes_unit 1572864 2);
    [split; [lia | reflexivity] | lia | right; vm_compute; discriminate
    | right; reflexivity].
Defined.

Example human_bytes_ex :
  human_bytes 0 = lit "0.0 B" /\ human_bytes 1280 = lit "1.2 KB"
  /\ human_bytes 1048575 = lit "1024.0 KB"
  /\ human_bytes (1024 ^ 5) = lit "1024.0 TB".
Proof. repeat split; vm_compute; reflexivity. Qed.

(** ** The log file *)

Lemma splitlines_one_line line :
  one_line line ->
  forall cur, splitlines_from cur (line ++ [10]) = [rev cur ++ line].
Proof.
  induction 1 as [|c line [Hc1 Hc2] _ IH]; intros cur; cbn [List.app splitlines_from].
  - cbn. rewrite (right_id_L [] (++)). reflexivity.
  - rewrite Hc1, Hc2, IH. cbn [rev]. rewrite <- (assoc_L (++)). reflexivity.
Qed.

(** Whatever the text before it, a line written with its newline is the
    end of the last line [splitlines] gives. *)
Lemma splitlines_last_line line :
  one_line line -> line <> [] ->
  forall n s cur,
    (length s <= n)%nat ->
    exists ls x, splitlines_from cur (s ++ line ++ [10]) = ls ++ [x ++ line].
Proof.
  intros Hline Hne.
  assert (forall cur, exists ls x,
            splitlines_from cur (line ++ [10]) = ls ++ [x ++ line]) as Hbase.
  { intros cur. exists [], (rev cur). apply splitlines_one_line, Hline. }
  assert (forall (h : str) (P : list str),
            (exists ls x, P = ls ++ [x ++ line]) ->
            exists ls x, h :: P = ls ++ [x ++ line]) as Hcons.
  { intros h P (ls & x & ->). exists (h :: ls), x. reflexivity. }
  induction n as [|n IH]; intros s cur Hlen.
  - destruct s; [apply Hbase | cbn in Hlen; lia].
  - destruct s as [|c s]; [apply Hbase|]. cbn in Hlen.
    cbn [List.app splitlines_from].
    destruct (c =? 13) eqn:E13.
    + destruct s as [|c' s'].
      * cbn [List.app]. destruct line as [|a l]; [congruence|].
        cbn [List.app]. inversion Hline as [|? ? [_ Ha] _]; subst.
        assert ((a =? 10) = false) as ->.
        { destruct (a =? 10) eqn:E; [|reflexivity].
          apply N.eqb_eq in E. subst a. discriminate. }
        apply Hcons, (Hbase []).
      * cbn [List.app]. destruct (c' =? 10).
        -- apply Hcons, IH. cbn in Hlen. lia.
        -- apply Hcons, (IH (c' :: s')). cbn in *. lia.
    + destruct (is_linebreak c).
      * apply Hcons, IH. lia.
      * apply IH. lia.
Qed.

Lemma slice_last_snoc {A} (n : Z) (l : list A) (y : A) :
  (0 <= n)%Z -> exists l', slice_last n (l ++ [y]) = l' ++ [y].
Proof.
  intros Hn. unfold slice_last, last_n.
  destruct (0 <? n)%Z eqn:E.
  - apply Z.ltb_lt in E. rewrite length_app. cbn [length].
    exists (drop (length l + 1 - Z.to_nat n) l).
    apply drop_app_le. lia.
  - apply Z.ltb_ge in E. replace (Z.to_nat (- n)) with 0%nat by lia.
    exists l. reflexivity.
Qed.

Lemma join_snoc sep (l : list str) (y : str) :
  exists pre, join sep (l ++ [y]) = pre ++ y.
Proof.
  induction l as [|x l [pre IH]]; [exists []; reflexivity|].
  cbn [List.app join]. destruct (l ++ [y]) as [|z t] eqn:E.
  - destruct l; discriminate.
  - exists (x ++ sep ++ pre). rewrite IH, <- !(assoc_L (++)). reflexivity.
Qed.

Lemma tail_log_last_line n stamp msg old :
  (0 <= n)%Z -> one_line stamp -> one_line msg ->
  exists pre,
    tail_log n (Text (old ++ (stamp ++ lit " | " ++ msg) ++ nl))
    = pre ++ stamp ++ lit " | " ++ msg.
Proof.
  intros Hn Hstamp Hmsg. cbn [tail_log]. unfold splitlines.
  destruct (splitlines_last_line (stamp ++ lit " | " ++ msg)) with
    (n := length old) (s := old) (cur := @nil char)
    as (ls & x & E).
  - apply Forall_app. split; [exact Hstamp|].
    apply Forall_app. split; [repeat constructor | exact Hmsg].
  - destruct stamp; discriminate.
  - lia.
  - unfold nl. rewrite E.
    edestruct (slice_last_snoc (A := str) n) as [l' Hl']; [exact Hn|].
    rewrite Hl'.
    edestruct (join_snoc [10] l') as [pre Hpre]. rewrite Hpre.
    exists (pre ++ x). rewrite <- (assoc_L (++)). reflexivity.
Qed.

(** X5.  What [log] writes, [tail_log] reads back, when the file was not
    there or held text that can be decoded: after a successful [log], for
    every [n >= 0] (0 gives the whole file) the text [tail_log n] returns
    ends with the stamped message, provided the stamp and the message hold
    no line break.  When the file held bytes that cannot be decoded it
    still does after [log], and [tail_log] returns the empty string. *)
Theorem X5_log_then_tail_log n stamp msg file :
  (0 <= n)%Z -> one_line stamp -> one_line msg ->
  (file <> Undecodable ->
   exists pre,
     tail_log n (log true stamp msg file) = pre ++ stamp ++ lit " | " ++ msg)
  /\ (file = Undecodable -> tail_log n (log true stamp msg file) = []).
Proof.
  intros Hn Hstamp Hmsg. split; [|intros ->; reflexivity].
  intros Hfile. destruct file as [|old|]; [| |contradiction]; cbn [log].
  - apply (tail_log_last_line n stamp msg [] Hn Hstamp Hmsg).
  - apply (tail_log_last_line n stamp msg old Hn Hstamp Hmsg).
Qed.

Lemma X5_log_then_tail_log_witness :
  exists pre,
    tail_log 10 (log true (lit "2025-01-01 10:00:00") (lit "Test log entry")
                   (Text (lit "old line" ++ nl)))
    = pre ++ lit "2025-01-01 10:00:00" ++ lit " | " ++ lit "Test log entry".
Proof.
  apply (X5_log_then_tail_log 10);
    [lia | repeat constructor | repeat constructor | discriminate].
Defined.

(** ** Quoting of update identifiers *)

Lemma replace_quote_cons c i :
  replace_quote (c :: i)
  = (if c =? 39 then [39; 39] else [c]) ++ replace_quote i.
Proof. reflexivity. Qed.

Lemma replace_quote_inj i : forall j, replace_quote i = replace_quote j -> i = j.
Proof.
  induction i as [|c i IH]; intros [|d j] E; [reflexivity| | |].
  - rewrite replace_quote_cons in E. destruct (d =? 39); discriminate.
  - rewrite replace_quote_cons in E. destruct (c =? 39); discriminate.
  - rewrite !replace_quote_cons in E.
    destruct (c =? 39) eqn:Ec, (d =? 39) eqn:Ed; cbn in E.
    + apply N.eqb_eq in Ec, Ed. subst. injection E as E.
      f_equal. apply IH, E.
    + injection E as E1 E2. subst d. discriminate.
    + injection E as E1 E2. subst c. discriminate.
    + injection E as E1 E2. subst d. f_equal. apply IH, E2.
Qed.

Lemma ps_read_body_quoted i :
  Forall (fun c => (8216 <=? c) && (c <=? 8219) = false) i ->
  forall acc rest,
    match rest with c :: _ => is_ps_quote c = false | [] => True end ->
    ps_read_body acc (replace_quote i ++ 39 :: rest) = Some (rev acc ++ i, rest).
Proof.
  induction 1 as [|c i Hc _ IH]; intros acc rest Hrest.
  - cbn. rewrite (right_id_L [] (++)).
    destruct rest as [|c' rest']; [reflexivity|]. rewrite Hrest. reflexivity.
  - rewrite replace_quote_cons. destruct (c =? 39) eqn:Ec.
    + apply N.eqb_eq in Ec. subst c. cbn [List.app ps_read_body].
      change (is_ps_quote 39) with true. cbv iota.
      rewrite IH by exact Hrest. cbn [rev].
      rewrite <- (assoc_L (++)). reflexivity.
    + cbn [List.app ps_read_body]. unfold is_ps_quote at 1. rewrite Ec, Hc.
      cbn [orb]. rewrite IH by exact Hrest. cbn [rev].
      rewrite <- (assoc_L (++)). reflexivity.
Qed.

(** X6.  The literal [install_windows_updates] builds for an update
    identifier denotes that identifier: read the way PowerShell reads a
    single-quoted literal, it gives the identifier back and ends exactly at
    its closing quote, whatever ASCII quotes, commas or spaces the
    identifier holds (typographic quotes, which PowerShell also takes for
    quotes, excepted).  Hence distinct identifiers never get the same
    literal. *)
Theorem X6_ps_quote_round_trip :
  (forall i rest,
     Forall (fun c => (8216 <=? c) && (c <=? 8219) = false) i ->
     match rest with c :: _ => is_ps_quote c = false | [] => True end ->
     ps_read_literal (ps_quote i ++ rest) = Some (i, rest))
  /\ (forall i j, ps_quote i = ps_quote j -> i = j).
Proof.
  split.
  - intros i rest Hi Hrest. unfold ps_quote. cbn [lit List.app ps_read_literal].
    change (Ascii.N_of_ascii _) with 39.
    change (is_ps_quote 39) with true. cbv iota.
    rewrite <- (assoc_L (++)).
    apply (ps_read_body_quoted i Hi [] rest Hrest).
  - intros i j E. unfold ps_quote in E. cbn [lit List.app] in E.
    injection E as E. change [Ascii.N_of_ascii _] with [39] in E. apply app_inv_tail in E. apply replace_quote_inj, E.
Qed.

Lemma X6_ps_quote_round_trip_witness :
  ps_read_literal (ps_quote (lit "it's, a b") ++ lit ",'x')")
  = Some (lit "it's, a b", lit ",'x')").
Proof.
  apply (proj1 X6_ps_quote_round_trip); [repeat constructor | reflexivity].
Defined.

(** ** Rows of [brew_list_installed] *)

Lemma split_ws_from_tokens s :
  forall cur,
    Forall (fun c => isspace c = false) cur ->
    Forall (fun t => t <> [] /\ Forall (fun c => isspace c = false) t)
      (split_ws_from cur s).
Proof.
  assert (forall cur : str,
            cur <> [] -> Forall (fun c => isspace c = false) cur ->
            rev cur <> [] /\ Forall (fun c => isspace c = false) (rev cur))
    as Hrev.
  { intros cur Hne Hcur. split.
    - intros E. apply Hne. rewrite <- (rev_involutive cur), E. reflexivity.
    - apply List.Forall_rev, Hcur. }
  induction s as [|c s IH]; intros cur Hcur; cbn [split_ws_from].
  - destruct cur as [|a cur]; [constructor|].
    constructor; [|constructor].
    apply (Hrev (a :: cur)); [discriminate | exact Hcur].
  - destruct (isspace c) eqn:Ec.
    + destruct cur as [|a cur]; [apply IH; constructor|].
      constructor; [|apply IH; constructor].
      apply (Hrev (a :: cur)); [discriminate | exact Hcur].
    + apply IH. constructor; [exact Ec | exact Hcur].
Qed.

Lemma brew_line_row line r :
  brew_line line = Some r ->
  exists name versions,
    r = mkWingetApp (JStr name) (JStr name) (JStr versions) (JStr [])
    /\ name <> [] /\ Forall (fun c => isspace c = false) name.
Proof.
  unfold brew_line, split_ws.
  pose proof (split_ws_from_tokens (strip line) [] (Forall_nil_2 _)) as H.
  destruct (split_ws_from [] (strip line)) as [|name rest]; [discriminate|].
  intros [= <-]. apply Forall_cons in H as [[Hne Hns] _]. eauto.
Qed.

(** X7.  [brew_list_installed] returns no row when brew exits with an
    error and at most one row per line otherwise; in every row the
    identifier is the name, the name is not empty and holds no white space,
    and the available version is empty. *)
Theorem X7_brew_installed_rows rc stdout :
  exists rows,
    brew_list_installed (Started (rc, stdout)) = Some rows
    /\ (rc <> 0%Z -> rows = [])
    /\ (length rows <= length (splitlines stdout))%nat
    /\ Forall
         (fun r =>
            exists name versions,
              r = mkWingetApp (JStr name) (JStr name) (JStr versions) (JStr [])
              /\ name <> [] /\ Forall (fun c => isspace c = false) name)
         rows.
Proof.
  unfold brew_list_installed. destruct (rc =? 0)%Z eqn:E; cbn [negb].
  - eexists. split; [reflexivity|].
    rewrite (collect_fold brew_line _ []). cbn [List.app].
    apply Z.eqb_eq in E. split; [congruence|].
    split; [apply omap_length_le|].
    apply Forall_omap_intro, brew_line_row.
  - exists []. split; [reflexivity|]. split; [reflexivity|].
    split; [cbn; lia | constructor].
Qed.

Lemma X7_brew_installed_rows_witness :
  exists rows,
    brew_list_installed (Started (1%Z, lit "git 2.44.0")) = Some rows
    /\ rows = [].
Proof.
  destruct (X7_brew_installed_rows 1 (lit "git 2.44.0"))
    as (rows & E & Hrc & _).
  exists rows. split; [exact E | apply Hrc; discriminate].
Defined.

(** ** Capabilities and dependencies *)

Lemma has_cap_unknown_os os feature :
  os <> lit "windows" -> os <> lit "darwin" -> os <> lit "linux" ->
  has_cap os feature = false.
Proof.
  intros Hw Hd Hl. unfold has_cap, CAPABILITIES.
  rewrite !lookup_insert_ne by congruence. reflexivity.
Qed.

Lemma has_cap_apps os :
  has_cap os (lit "apps")
  = bool_decide (os = lit "windows") || bool_decide (os = lit "darwin").
Proof.
  destruct (decide (os = lit "windows")) as [->|Hw]; [reflexivity|].
  destruct (decide (os = lit "darwin")) as [->|Hd]; [reflexivity|].
  rewrite !bool_decide_eq_false_2 by assumption.
  destruct (decide (os = lit "linux")) as [->|Hl]; [reflexivity|].
  apply has_cap_unknown_os; assumption.
Qed.

Lemma has_cap_windows_only os feature :
  feature = lit "updates" \/ feature = lit "drivers" ->
  has_cap os feature = bool_decide (os = lit "windows").
Proof.
  intros Hf.
  destruct (decide (os = lit "windows")) as [->|Hw];
    [destruct Hf as [-> | ->]; reflexivity|].
  rewrite bool_decide_eq_false_2 by assumption.
  destruct (decide (os = lit "darwin")) as [->|Hd];
    [destruct Hf as [-> | ->]; reflexivity|].
  destruct (decide (os = lit "linux")) as [->|Hl];
    [destruct Hf as [-> | ->]; reflexivity|].
  apply has_cap_unknown_os; assumption.
Qed.

(** X8.  [ensure_deps] agrees with the capability matrix: on an operating
    system for which [has_cap] denies apps, asking for apps makes it return
    [False], and where [has_cap] denies Windows updates or drivers, asking
    for them never lets it return [True], whatever the tools answer.  With
    nothing asked it returns [True] and consults no tool. *)
Theorem X8_ensure_deps_respects_capabilities os ps w :
  (forall updates drivers,
     has_cap os (lit "apps") = false ->
     ensure_deps os ps w true updates drivers = Some false)
  /\ (forall feature apps updates drivers,
        feature = lit "updates" /\ updates = true
        \/ feature = lit "drivers" /\ drivers = true ->
        has_cap os feature = false ->
        ensure_deps os ps w apps updates drivers <> Some true)
  /\ ensure_deps os ps w false false false = Some true.
Proof.
  split; [|split; [|reflexivity]].
  - intros updates drivers Hcap. rewrite has_cap_apps in Hcap.
    apply orb_false_iff in Hcap as [Hw Hd].
    unfold ensure_deps. rewrite Hw, Hd. cbn.
    destruct (updates || drivers); reflexivity.
  - intros feature apps updates drivers Hf Hcap.
    rewrite has_cap_windows_only in Hcap by tauto.
    assert (updates || drivers = true) as Hud
      by (destruct Hf as [[_ ->] | [_ ->]]; [reflexivity | apply orb_true_r]).
    unfold ensure_deps. rewrite Hcap, Hud.
    destruct apps; [|simpl; discriminate].
    destruct (bool_decide (os = lit "darwin")); [|simpl; discriminate].
    destruct (dw_brew w); simpl; discriminate.
Qed.

Lemma X8_ensure_deps_respects_capabilities_witness :
  ensure_deps (lit "linux") []
    {| dw_winget_ready := true; dw_brew := Started 0%Z;
       dw_prepare := FileNotFoundError |} true false false = Some false
  /\ ensure_deps (lit "darwin") []
       {| dw_winget_ready := true; dw_brew := Started 0%Z;
          dw_prepare := FileNotFoundError |} true false true <> Some true.
Proof.
  split.
  - apply (proj1 (X8_ensure_deps_respects_capabilities _ _ _)). reflexivity.
  - apply (proj1 (proj2 (X8_ensure_deps_respects_capabilities _ _ _))
             (lit "drivers")); [right; split; reflexivity | reflexivity].
Defined.

(** ** Sizes of directories *)

Lemma calc_size_from fs paths :
  forall total,
    fold_left
      (fun total base =>
         match fs base with
         | Some (FsDir entries) => (total + walk_size entries)%Z
         | _ => total
         end)
      paths total
    = (total + calc_size fs paths)%Z.
Proof.
  unfold calc_size.
  induction paths as [|p paths IH]; intros total; cbn [fold_left]; [lia|].
  rewrite IH, (IH (match fs p with
                   | Some (FsDir entries) => (0 + walk_size entries)%Z
                   | _ => 0%Z
                   end)).
  destruct (fs p) as [[size|entries]|]; lia.
Qed.

(** X9.  [calc_size] adds up path by path: the size of two lists of paths
    put together is the sum of their sizes, a path that does not exist or
    is not a directory adds nothing, and a directory that two listed paths
    lead to is counted twice. *)
Theorem X9_calc_size_adds_up fs :
  (forall a b, calc_size fs (a ++ b) = (calc_size fs a + calc_size fs b)%Z)
  /\ (forall p,
        (fs p = None \/ exists size, fs p = Some (FsFile size)) ->
        forall a b, calc_size fs (a ++ p :: b) = calc_size fs (a ++ b))
  /\ (forall p q, fs p = fs q -> calc_size fs [p; q] = (2 * calc_size fs [p])%Z).
Proof.
  assert (forall a b,
            calc_size fs (a ++ b) = (calc_size fs a + calc_size fs b)%Z) as Hadd.
  { intros a b. unfold calc_size at 1. rewrite fold_left_app.
    fold (calc_size fs a). apply calc_size_from. }
  split; [exact Hadd|]. split.
  - intros p Hp a b. rewrite !Hadd. f_equal.
    change (p :: b) with ([p] ++ b). rewrite Hadd.
    assert (calc_size fs [p] = 0%Z) as ->; [|lia].
    unfold calc_size. cbn. destruct Hp as [-> | [size ->]]; reflexivity.
  - intros p q E. change [p; q] with ([p] ++ [q]). rewrite Hadd.
    unfold calc_size. cbn [fold_left]. rewrite E. lia.
Qed.

Lemma X9_calc_size_adds_up_witness :
  let fs := fun p : str =>
    if bool_decide (p = lit "C:\Windows\Temp")
    then Some (FsDir [FsFile (Some 10%Z); FsDir [FsFile None; FsFile (Some 5%Z)]])
    else None in
  calc_size fs ([lit "C:\Temp"] ++ lit "C:\Missing" :: [lit "C:\Windows\Temp"])
  = calc_size fs ([lit "C:\Temp"] ++ [lit "C:\Windows\Temp"]).
Proof.
  intros fs.
  apply (proj1 (proj2 (X9_calc_size_adds_up fs)) (lit "C:\Missing")).
  left. reflexivity.
Defined.

(** ** Driver packages *)

Lemma token_last (t : str) :
  token t -> exists c, last t = Some c /\ isspace c = false.
Proof.
  intros [Hne Hns]. destruct (last t) as [c|] eqn:E.
  - exists c. split; [reflexivity|].
    apply last_Some_elem_of in E.
    rewrite Forall_forall in Hns. apply Hns, E.
  - apply last_None in E. contradiction.
Qed.

Lemma join_tokens sep (l : list str) :
  l <> [] -> Forall token l ->
  join sep l <> [] /\ trimmed (join sep l).
Proof.
  intros Hne Hall.
  assert (match join sep l with
          | c :: _ => isspace c = false
          | [] => False
          end) as Hhead.
  { destruct l as [|v rest]; [contradiction|].
    apply Forall_cons in Hall as [[Hv Hns] _].
    destruct v as [|a v']; [contradiction|].
    apply Forall_cons in Hns as [Ha _].
    cbn [join]. destruct rest; cbn; exact Ha. }
  assert (exists c, last (join sep l) = Some c /\ isspace c = false)
    as (c & Hc & Hsp).
  { destruct (exists_last Hne) as (l' & y & ->).
    edestruct (join_snoc sep l') as [pre Hpre]. rewrite Hpre.
    apply Forall_app in Hall as [_ Hy]. apply Forall_cons in Hy as [Hy _].
    destruct (token_last y Hy) as (c & Hc & Hsp).
    exists c. rewrite last_app, Hc. auto. }
  unfold trimmed. revert Hhead Hc.
  generalize (join sep l). intros j Hhead Hc. rewrite Hc.
  destruct j; [contradiction|]. split; [discriminate|]. split; assumption.
Qed.

Lemma driver_line_ok d line d' :
  driver_dict_ok d -> driver_line d line = Some d' -> driver_dict_ok d'.
Proof.
  intros (Hn & Hp & Hv & Ht). unfold driver_line.
  assert (forall t n, Some (strip t) = Some n -> trimmed n) as Hstrip.
  { intros t n [= <-]. apply strip_trimmed. }
  destruct (lower_startswith (lit "published name") line).
  { destruct (after_colon line) as [t|]; [|discriminate].
    simpl. intros [= <-].
    split; [apply Hstrip|]. split; [exact Hp|]. split; [exact Hv | exact Ht]. }
  destruct (lower_startswith (lit "driver package provider") line).
  { destruct (after_colon line) as [t|]; [|discriminate].
    simpl. intros [= <-].
    split; [exact Hn|]. split; [apply Hstrip|]. split; [exact Hv | exact Ht]. }
  destruct (lower_startswith (lit "driver date and version") line).
  { destruct (after_colon line) as [t|]; [|discriminate].
    simpl. unfold split_ws.
    pose proof (split_ws_from_tokens (strip t) [] (Forall_nil_2 _)) as Htok.
    destruct (split_ws_from [] (strip t)) as [|day [|v rest]].
    - intros [= <-]. repeat (split; [assumption|]). assumption.
    - intros [= <-]. repeat (split; [assumption|]). assumption.
    - apply Forall_cons in Htok as [Hday Hrest].
      intros [= <-]. split; [exact Hn|]. split; [exact Hp|]. split.
      + intros x [= <-].
        apply (join_tokens (lit " ") (v :: rest)); [discriminate | exact Hrest].
      + intros x [= <-]. exact Hday. }
  intros [= <-]. repeat (split; [assumption|]). assumption.
Qed.

Lemma driver_lines_ok lines :
  forall d d',
    driver_dict_ok d -> driver_lines d lines = Some d' -> driver_dict_ok d'.
Proof.
  induction lines as [|line lines IH]; intros d d' Hd; cbn [driver_lines].
  - intros [= <-]. exact Hd.
  - destruct (driver_line d line) as [d1|] eqn:E; simpl; [|discriminate].
    apply IH. eapply driver_line_ok; eauto.
Qed.

Lemma driver_blocks_ok (P : DriverPackage -> Prop) :
  (forall d p, driver_dict_ok d -> driver_package d = Some p -> P p) ->
  forall blocks pkgs res,
    Forall P pkgs ->
    driver_blocks blocks pkgs = Some res ->
    Forall P res /\ (length res <= length pkgs + length blocks)%nat.
Proof.
  intros HP. induction blocks as [|b blocks IH]; intros pkgs res Hpk;
    cbn [driver_blocks].
  - intros [= <-]. split; [exact Hpk | lia].
  - destruct (driver_lines driver_dict_empty (splitlines b)) as [d|] eqn:E;
      simpl; [|discriminate].
    assert (driver_dict_ok d) as Hd.
    { eapply driver_lines_ok; [|exact E].
      repeat split; cbn; discriminate. }
    intros Hres. apply IH in Hres.
    + destruct Hres as [HF Hle]. split; [exact HF|].
      destruct (driver_package d); [rewrite length_app in Hle|];
        cbn [length] in *; lia.
    + destruct (driver_package d) as [p|] eqn:Ep; [|exact Hpk].
      apply Forall_app. split; [exact Hpk|].
      constructor; [|constructor]. eapply HP; eauto.
Qed.

(** X10.  When [list_installed_drivers] returns, a failed [pnputil] gives
    no package and a successful one at most one package per block of its
    output; in every package the published name and the provider carry no
    white space at their ends, the date is one word (not empty, no white
    space) and the version is not empty and carries no white space at its
    ends. *)
Theorem X10_driver_packages_wellformed rc stdout pkgs :
  list_installed_drivers (Started (rc, stdout)) = Some pkgs ->
  (rc <> 0%Z -> pkgs = [])
  /\ (length pkgs <= length (split_blocks (strip stdout)))%nat
  /\ Forall
       (fun p =>
          trimmed (published_name p) /\ trimmed (provider p)
          /\ token (date p)
          /\ version p <> [] /\ trimmed (version p))
       pkgs.
Proof.
  unfold list_installed_drivers. destruct (rc =? 0)%Z eqn:E; cbn [negb].
  - intros H. apply Z.eqb_eq in E. split; [congruence|].
    eapply driver_blocks_ok in H; [| |constructor].
    + destruct H as [HF Hle]. split; [exact Hle | exact HF].
    + intros d p (Hn & Hp & Hv & Ht). unfold driver_package.
      destruct (d_published_name d) as [n|]; [|discriminate].
      destruct (d_provider d) as [pr|]; [|discriminate].
      destruct (d_version d) as [v|]; [|discriminate].
      destruct (d_date d) as [t|]; [|discriminate].
      intros [= <-]. cbn.
      destruct (Hv v eq_refl) as [Hv1 Hv2]. auto 10.
  - intros [= <-]. split; [reflexivity|]. split; [cbn; lia | constructor].
Qed.

Lemma X10_driver_packages_wellformed_witness :
  let stdout :=
    lit "Published Name:   oem3.inf" ++ [10]
    ++ lit "Driver Package Provider:   Contoso" ++ [10]
    ++ lit "Driver Date and Version:   01/02/2024 1.2.3.4" ++ [10] in
  let pkgs :=
    [{| published_name := lit "oem3.inf"; provider := lit "Contoso";
        version := lit "1.2.3.4"; date := lit "01/02/2024" |}] in
  (length pkgs <= length (split_blocks (strip stdout)))%nat.
Proof.
  intros stdout pkgs.
  apply (X10_driver_packages_wellformed 0 stdout pkgs). reflexivity.
Defined.

Lemma driver_line_raises d line :
  (exists key, In key driver_keys /\ lower_startswith key line = true) ->
  after_colon line = None ->
  driver_line d line = None.
Proof.
  intros (key & Hin & Hkey) Hc. unfold driver_line. rewrite Hc.
  destruct (lower_startswith (lit "published name") line) eqn:E1;
    [reflexivity|].
  destruct (lower_startswith (lit "driver package provider") line) eqn:E2;
    [reflexivity|].
  destruct (lower_startswith (lit "driver date and version") line) eqn:E3;
    [reflexivity|].
  unfold driver_keys in Hin. cbn [In] in Hin.
  destruct Hin as [<- | [<- | [<- | []]]]; congruence.
Qed.

Lemma driver_lines_raises lines line :
  In line lines ->
  (forall d, driver_line d line = None) ->
  forall d, driver_lines d lines = None.
Proof.
  intros Hin Hline. induction lines as [|l lines IH]; intros d; [destruct Hin|].
  cbn [driver_lines]. destruct Hin as [-> | Hin].
  - rewrite Hline. reflexivity.
  - destruct (driver_line d l); simpl; [apply IH, Hin | reflexivity].
Qed.

Lemma driver_blocks_raises blocks b :
  In b blocks ->
  driver_lines driver_dict_empty (splitlines b) = None ->
  forall pkgs, driver_blocks blocks pkgs = None.
Proof.
  intros Hin Hb. induction blocks as [|x blocks IH]; intros pkgs;
    [destruct Hin|].
  cbn [driver_blocks]. destruct Hin as [-> | Hin].
  - rewrite Hb. reflexivity.
  - destruct (driver_lines driver_dict_empty (splitlines x)); simpl;
      [apply IH, Hin | reflexivity].
Qed.

(** X11.  [list_installed_drivers] does not return when [pnputil]
    succeeds and some line of its output starts, in any letter case, with
    one of the three keys but holds no colon: [line.split(":", 1)[1]]
    raises [IndexError], whatever the other lines and blocks are. *)
Theorem X11_driver_key_line_without_colon stdout b line key :
  In b (split_blocks (strip stdout)) ->
  In line (splitlines b) ->
  In key driver_keys ->
  lower_startswith key line = true ->
  Forall (fun c => c <> 58) line ->
  list_installed_drivers (Started (0%Z, stdout)) = None.
Proof.
  intros Hb Hline Hkey Hstart Hcolon.
  unfold list_installed_drivers. cbn [Z.eqb negb].
  apply (driver_blocks_raises _ b Hb).
  apply (driver_lines_raises _ line Hline).
  intros d. apply driver_line_raises; [eauto|].
  clear -Hcolon. induction Hcolon as [|c l Hc _ IH]; [reflexivity|].
  cbn [after_colon]. apply N.eqb_neq in Hc. rewrite Hc. exact IH.
Qed.

Lemma X11_driver_key_line_without_colon_witness :
  list_installed_drivers
    (Started (0%Z,
              lit "Published Name:   oem3.inf" ++ [10; 10]
              ++ lit "DRIVER PACKAGE PROVIDER Contoso" ++ [10]))
  = None.
Proof.
  apply (X11_driver_key_line_without_colon _
           (lit "DRIVER PACKAGE PROVIDER Contoso")
           (lit "DRIVER PACKAGE PROVIDER Contoso")
           (lit "driver package provider")).
  - vm_compute. right. left. reflexivity.
  - vm_compute. left. reflexivity.
  - vm_compute. right. left. reflexivity.
  - vm_compute. reflexivity.
  - vm_compute. repeat constructor; discriminate.
Defined.

(** ** The updates decoded by [_ps_get_updates] *)

Lemma ps_get_updates_loop ps_prepare ps_scan w v items :
  scan_gives ps_prepare ps_scan w v ->
  v = JArr items \/ (exists m, v = JObj m /\ items = [v]) ->
  _ps_get_updates ps_prepare ps_scan w = win_updates items [].
Proof.
  intros (Hready & (out & Hrun & Hout) & Hdec) Hv.
  unfold _ps_get_updates. rewrite Hready, Hrun, Hdec. cbn [negb].
  replace (nonempty (strip out)) with true
    by (destruct (strip out); [contradiction | reflexivity]).
  cbn [Z.eqb negb orb].
  destruct Hv as [-> | (m & -> & ->)]; reflexivity.
Qed.

Lemma win_updates_spec items :
  forall ups0 ups,
    win_updates items ups0 = Some ups ->
    exists new,
      ups = ups0 ++ new
      /\ Forall2 (fun it u => win_update it = Some u) items new.
Proof.
  induction items as [|it items IH]; intros ups0 ups; cbn [win_updates].
  - intros [= <-]. exists []. split; [|constructor].
    symmetry. apply (right_id_L [] (++)).
  - destruct (win_update it) as [u|] eqn:E; [|discriminate].
    intros H. apply IH in H as (new & -> & HF).
    exists (u :: new). split; [|constructor; assumption].
    rewrite <- (assoc_L (++)). reflexivity.
Qed.

Lemma win_updates_raises items it :
  In it items -> win_update it = None ->
  forall ups0, win_updates items ups0 = None.
Proof.
  intros Hin Hit. induction items as [|x items IH]; intros ups0;
    [destruct Hin|].
  cbn [win_updates]. destruct Hin as [-> | Hin].
  - rewrite Hit. reflexivity.
  - destruct (win_update x); [apply IH, Hin | reflexivity].
Qed.

Lemma win_updates_returns items :
  Forall (fun it => exists u, win_update it = Some u) items ->
  forall ups0, exists new,
    win_updates items ups0 = Some (ups0 ++ new)
    /\ length new = length items.
Proof.
  induction 1 as [|it items [u Hu] _ IH]; intros ups0; cbn [win_updates].
  - exists []. rewrite (right_id_L [] (++)). split; reflexivity.
  - rewrite Hu. destruct (IH (ups0 ++ [u])) as (new & -> & Hlen).
    exists (u :: new). rewrite <- (assoc_L (++)).
    split; [reflexivity | cbn [length]; lia].
Qed.

(** X12.  Once the scan has succeeded and its output is decoded, as an
    array or as one object (taken as an array of one),
    [_ps_get_updates] returns one update per decoded item, in the order
    of the items, or nothing at all: an update carries its item's
    [Title] and [UpdateId] (the empty string when the key is missing) and
    its [KB] ([None] when missing); an item that is not an object makes
    the call raise, the loop being outside [try]; and when every item is
    an object whose [Categories] is missing or an array, the call returns
    as many updates as there are items. *)
Theorem X12_ps_get_updates_one_per_item ps_prepare ps_scan w v items :
  scan_gives ps_prepare ps_scan w v ->
  v = JArr items \/ (exists m, v = JObj m /\ items = [v]) ->
  (forall ups,
     _ps_get_updates ps_prepare ps_scan w = Some ups ->
     Forall2
       (fun it u =>
          exists m,
            it = JObj m
            /\ title u = dict_get_or m "Title" (JStr [])
            /\ kb u = dict_get m "KB"
            /\ update_id u = dict_get_or m "UpdateId" (JStr []))
       items ups)
  /\ ((exists it, In it items /\ forall m, it <> JObj m) ->
      _ps_get_updates ps_prepare ps_scan w = None)
  /\ (Forall
        (fun it =>
           exists m,
             it = JObj m
             /\ (m !! lit "Categories" = None
                 \/ exists l, m !! lit "Categories" = Some (JArr l)))
        items ->
      exists ups,
        _ps_get_updates ps_prepare ps_scan w = Some ups
        /\ length ups = length items).
Proof.
  intros Hscan Hv. rewrite (ps_get_updates_loop _ _ _ _ _ Hscan Hv).
  split; [|split].
  - intros ups H. apply win_updates_spec in H as (new & -> & HF).
    cbn [List.app]. eapply Forall2_impl; [exact HF|].
    intros it u. unfold win_update.
    destruct it as [| | | | |m]; try discriminate.
    destruct (py_list _); simpl; [|discriminate].
    intros [= <-]. exists m. repeat split.
  - intros (it & Hin & Hit). apply (win_updates_raises _ it Hin).
    destruct it; try reflexivity. destruct (Hit m). reflexivity.
  - intros Hitems.
    destruct (win_updates_returns items) with (ups0 := @nil WinUpdate)
      as (new & E & Hlen).
    + eapply Forall_impl; [exact Hitems|].
      intros it (m & -> & Hcat). unfold win_update, dict_get_or.
      destruct Hcat as [-> | [l ->]]; cbn [default].
      * eexists. reflexivity.
      * destruct l; eexists; reflexivity.
    + exists new. split; [exact E | exact Hlen].
Qed.

Lemma X12_ps_get_updates_one_per_item_witness :
  let done (line : str) :=
    Started {| stdout_lines := [line ++ [10]]; returncode := Some 0%Z |} in
  let item : gmap str json := ∅ in
  let w :=
    {| os_prepare := done (lit "OK"); os_scan := done (lit "{}");
       scan_decoded := Some (JObj item) |} in
  exists ups,
    _ps_get_updates [] [] w = Some ups /\ length ups = 1%nat.
Proof.
  intros done item w.
  apply (X12_ps_get_updates_one_per_item [] [] w (JObj item) [JObj item]).
  - split; [reflexivity|]. split; [|reflexivity].
    eexists. split; [reflexivity|]. vm_compute. discriminate.
  - right. exists item. split; reflexivity.
  - constructor; [|constructor]. exists item. split; [reflexivity|].
    left. reflexivity.
Defined.

(** ** What [_scan_windows_updates_quiet] keeps of a decoded array *)

Lemma quiet_iter_array l : quiet_iter (JArr l) = Some l.
Proof. destruct l; reflexivity. Qed.

Lemma plain_update_item j :
  plain_update j ->
  exists it, quiet_item j = Some it /\ is_Some (quiet_title (Title it)).
Proof.
  intros (m & -> & Ht & Hc). unfold quiet_item, dict_get_or.
  assert (exists cats,
            py_list (py_or (default (JArr []) (m !! lit "Categories"))
                       (JArr [])) = Some cats) as [cats ->].
  { destruct Hc as [-> | [l ->]]; cbn [default]; [eexists; reflexivity|].
    destruct l; eexists; reflexivity. }
  assert (is_Some (quiet_title (default (JStr []) (m !! lit "Title"))))
    as Htitle.
  { destruct Ht as [-> | [s ->]]; cbn [default]; [eexists; reflexivity|].
    destruct s; eexists; reflexivity. }
  simpl. eexists. split; [reflexivity | exact Htitle].
Qed.

Lemma quiet_loop_prefix pre rest :
  Forall plain_update pre ->
  forall acc, exists items,
    Forall2 (fun j it => quiet_item j = Some it) pre items
    /\ Forall (fun it => is_Some (quiet_title (Title it))) items
    /\ quiet_loop (pre ++ rest) acc = quiet_loop rest (acc ++ items).
Proof.
  induction 1 as [|j pre Hj _ IH]; intros acc.
  - exists []. rewrite (right_id_L [] (++)). repeat constructor.
  - destruct (plain_update_item j Hj) as (it & Hit & Ht).
    destruct (IH (acc ++ [it])) as (items & HF & HT & E).
    exists (it :: items). split; [constructor; assumption|].
    split; [constructor; assumption|].
    cbn [List.app quiet_loop]. rewrite Hit, E, <- (assoc_L (++)). reflexivity.
Qed.

Lemma log_evict_dropped s u :
  exists d, d ++ logs (log_evict s u) = logs u ++ [s] /\ (length d <= 1)%nat.
Proof.
  cbn [log_evict render set_logs logs]. unfold evict20.
  destruct (20 <? length (logs u ++ [s]))%nat.
  - destruct (logs u ++ [s]) as [|x l]; [exists []|exists [x]];
      split; cbn; auto.
  - exists []. split; [reflexivity | cbn; lia].
Qed.

Lemma quiet_bumps_writes ps pe items :
  Forall (fun it => is_Some (quiet_title (Title it))) items ->
  forall u, exists u' ws dropped,
    quiet_bumps ps pe items u = (u', false)
    /\ writes u' = writes u ++ ws
    /\ length ws = length items
    /\ dropped ++ logs u' = logs u ++ (quiet_log_line <$> items)
    /\ (length dropped <= length items)%nat.
Proof.
  induction 1 as [|it items [t Ht] _ IH]; intros u; cbn [quiet_bumps].
  - exists u, [], []. cbn [fmap list_fmap List.app length].
    rewrite !(right_id_L [] (++)). repeat split. lia.
  - rewrite Ht.
    match goal with
    | |- context [quiet_bumps ps pe items
                    (update_completed ?q (log_evict ?s u))] =>
        destruct (log_evict_dropped s u) as (d & Hd & Hdlen);
        destruct (IH (update_completed q (log_evict s u)))
          as (u' & ws & dropped & E & Hw & Hlen & Hl & Hdrop);
        change (logs (update_completed q (log_evict s u)))
          with (logs (log_evict s u)) in Hl;
        exists u', (Qmin pe (completed u + (pe - ps) / 40)%Q :: ws),
          (d ++ dropped)
    end.
    split; [exact E|]. split; [|split; [cbn [length]; lia|split]].
    + rewrite Hw. cbn. rewrite <- (assoc_L (++)). reflexivity.
    + rewrite <- (assoc_L (++)), Hl, (assoc_L (++)), Hd, <- (assoc_L (++)).
      f_equal. cbn [fmap list_fmap List.app]. f_equal.
      unfold quiet_log_line. rewrite Ht. reflexivity.
    + rewrite length_app. cbn [length]. lia.
Qed.

(** X13.  When the scan prints an array whose first elements are updates
    as the script prints them and which either ends there or goes on with
    something that is not an object, [_scan_windows_updates_quiet] returns
    the items built from those first elements, in order, and none for the
    rest.  It appends to the log, in this order: the announcement of the
    scan; the line [Windows update parse error: ...] when an element that
    is not an object stopped the loop; and one line for each of the first
    fifty items, or the line that no update was reported when there is no
    item.  What the list holds at the end is these appends after what the
    list held, less the entries taken off its front, at most one for each
    item logged.  However many items it returns, it moves the progress at
    most 51 times: once for each of the first 50 items and once to the end
    of the phase. *)
Theorem X13_quiet_scan_keeps_good_prefix w u ps pe out pre rest :
  uw_proc w = Started (Finished out) ->
  strip out <> [] ->
  uw_decoded w = Some (JArr (pre ++ rest)) ->
  Forall plain_update pre ->
  (rest = [] \/ exists bad post, rest = bad :: post /\ forall m, bad <> JObj m) ->
  let r := _scan_windows_updates_quiet w u ps pe in
  exists items ws dropped,
    r.2 = Some items
    /\ Forall2 (fun j it => quiet_item j = Some it) pre items
    /\ writes r.1 = writes u ++ ws
    /\ length ws = (50 `min` length pre + 1)%nat
    /\ last ws = Some pe
    /\ dropped ++ logs r.1
       = logs u
           ++ [lit "Checking Windows updates" ++ [8230]]
           ++ match rest with
              | [] => []
              | _ => [lit "Windows update parse error: " ++ uw_error w]
              end
           ++ match items with
              | [] => [lit "No Windows updates reported."]
              | _ => quiet_log_line <$> take 50 items
              end
    /\ (length dropped <= 50 `min` length pre)%nat.
Proof.
  intros Hproc Hout Hdec Hpre Hrest r. subst r.
  unfold _scan_windows_updates_quiet. rewrite Hproc, Hdec. cbv zeta.
  replace (nonempty (strip out)) with true
    by (destruct (strip out); [contradiction | reflexivity]).
  assert (Some (JArr (pre ++ rest)) ≫= quiet_iter = Some (pre ++ rest)) as ->
    by apply quiet_iter_array.
  destruct (quiet_loop_prefix pre rest Hpre []) as (items & HF & HT & ->).
  cbn [List.app].
  assert (quiet_loop rest items
          = (items, match rest with [] => false | _ => true end)) as ->.
  { destruct Hrest as [-> | (bad & post & -> & Hbad)]; cbn [quiet_loop].
    - reflexivity.
    - assert (quiet_item bad = None) as ->; [|reflexivity].
      destruct bad; try reflexivity. destruct (Hbad m). reflexivity. }
  pose proof (Forall2_length _ _ _ HF) as Hlen.
  set (u1 := if match rest with [] => false | _ => true end then _ else _).
  assert (writes u1 = writes u) as Hu1 by (subst u1; destruct rest; reflexivity).
  assert (logs u1
          = logs u
              ++ [lit "Checking Windows updates" ++ [8230]]
              ++ match rest with
                 | [] => []
                 | _ => [lit "Windows update parse error: " ++ uw_error w]
                 end) as Hl1.
  { subst u1. destruct rest; cbn [logs log_plain render set_logs].
    - reflexivity.
    - rewrite <- (assoc_L (++)). reflexivity. }
  clearbody u1. destruct items as [|it items].
  - apply Forall2_nil_inv_r in HF as ->.
    exists [], [pe], []. cbn [fst snd writes logs update_completed log_plain
      render set_logs List.app]. rewrite Hu1, Hl1, <- !(assoc_L (++)).
    split; [reflexivity|]. split; [constructor|].
    split; [reflexivity|]. split; [reflexivity|].
    split; [reflexivity|]. split; [reflexivity | cbn; lia].
  - destruct (quiet_bumps_writes ps pe (take 50 (it :: items)))
      with (u := u1) as (u' & ws & dropped & -> & Hw & Hws & Hlog & Hdrop).
    { apply Forall_take, HT. }
    exists (it :: items), (ws ++ [pe]), dropped. split; [reflexivity|].
    split; [exact HF|]. cbn [fst writes logs update_completed].
    rewrite Hw, Hu1, <- (assoc_L (++)). split; [reflexivity|].
    rewrite length_take in Hws, Hdrop. rewrite <- Hlen in *.
    split; [rewrite length_app, Hws; cbn [length]; lia|].
    split; [apply last_snoc|]. split; [|exact Hdrop].
    rewrite Hlog, Hl1, <- !(assoc_L (++)). reflexivity.
Qed.

Lemma X13_quiet_scan_keeps_good_prefix_witness :
  let w :=
    {| uw_proc := Started (Finished (lit "[{}, 5]"));
       uw_decoded := Some (JArr [JObj ∅; JInt 5]);
       uw_error := lit "'int' object has no attribute 'get'" |} in
  exists items,
    (_scan_windows_updates_quiet w ui_start 40 80).2 = Some items
    /\ length items = 1%nat.
Proof.
  intros w.
  destruct (X13_quiet_scan_keeps_good_prefix w ui_start 40 80
              (lit "[{}, 5]") [JObj ∅] [JInt 5])
    as (items & ws & dropped & E & HF & _).
  - reflexivity.
  - vm_compute. discriminate.
  - reflexivity.
  - constructor; [|constructor]. exists ∅. split; [reflexivity|].
    split; left; reflexivity.
  - right. exists (JInt 5), []. split; [reflexivity | discriminate].
  - exists items. split; [exact E|].
    apply Forall2_length in HF. symmetry. exact HF.
Defined.

(** ** The test for the PowerShell module *)

Section two_characters.
Variables x y : char.

Lemma contains2_nil : contains [x; y] [] = false.
Proof. reflexivity. Qed.

Lemma startswith1_app (a b : str) (n : char) :
  n <> y -> startswith [y] (a ++ n :: b) = startswith [y] a.
Proof.
  intros Hn. destruct a as [|d a]; [|reflexivity].
  cbn. apply N.eqb_neq in Hn. rewrite N.eqb_sym, Hn. reflexivity.
Qed.

(** A character that is neither [x] nor [y] separates the occurrences of
    [x; y]. *)
Lemma contains2_sep (a b : str) (n : char) :
  n <> x -> n <> y ->
  contains [x; y] (a ++ n :: b) = contains [x; y] a || contains [x; y] b.
Proof.
  intros Hx Hy. induction a as [|c a IH].
  - cbn [List.app contains startswith].
    apply N.eqb_neq in Hx. rewrite (N.eqb_sym x n), Hx. reflexivity.
  - cbn [List.app contains]. rewrite IH.
    change (startswith [x; y] (c :: a ++ n :: b))
      with ((x =? c) && startswith [y] (a ++ n :: b)).
    change (startswith [x; y] (c :: a)) with ((x =? c) && startswith [y] a).
    rewrite (startswith1_app a b n Hy), orb_assoc. reflexivity.
Qed.

Lemma contains2_join (ls : list str) :
  x <> 10 -> y <> 10 ->
  contains [x; y] (join [10] ls) = existsb (contains [x; y]) ls.
Proof.
  intros Hx Hy. induction ls as [|l ls IH]; [reflexivity|].
  cbn [join existsb]. destruct ls as [|l' ls].
  - cbn [existsb]. rewrite orb_false_r. reflexivity.
  - change ([10] ++ join [10] (l' :: ls)) with (10 :: join [10] (l' :: ls)).
    rewrite contains2_sep, IH by congruence. reflexivity.
Qed.

Lemma contains2_spaces (ws : str) :
  isspace x = false ->
  Forall (fun c => isspace c = true) ws -> contains [x; y] ws = false.
Proof.
  intros Hx. induction 1 as [|w ws Hw _ IH]; [reflexivity|].
  cbn [contains startswith]. rewrite IH, orb_false_r.
  destruct (x =? w) eqn:E; [|reflexivity].
  apply N.eqb_eq in E. congruence.
Qed.

Lemma contains2_app_spaces (a ws : str) :
  isspace x = false -> isspace y = false ->
  Forall (fun c => isspace c = true) ws ->
  contains [x; y] (a ++ ws) = contains [x; y] a.
Proof.
  intros Hx Hy Hws. destruct Hws as [|w ws Hw Hws].
  - rewrite (right_id_L [] (++)). reflexivity.
  - rewrite contains2_sep, (contains2_spaces ws Hx Hws), orb_false_r
      by congruence.
    reflexivity.
Qed.
End two_characters.

Lemma lstrip_spaces s :
  exists ws, s = ws ++ lstrip s /\ Forall (fun c => isspace c = true) ws.
Proof.
  induction s as [|c s (ws & E & Hws)]; [exists []; split; [reflexivity|constructor]|].
  cbn [lstrip]. destruct (isspace c) eqn:Ec.
  - exists (c :: ws). split; [cbn; congruence | constructor; assumption].
  - exists []. split; [reflexivity | constructor].
Qed.

Lemma rstrip_spaces s :
  exists ws, s = rstrip s ++ ws /\ Forall (fun c => isspace c = true) ws.
Proof.
  destruct (lstrip_spaces (rev s)) as (ws & E & Hws).
  exists (rev ws). split; [|apply List.Forall_rev, Hws].
  unfold rstrip. rewrite <- rev_app_distr, <- E, rev_involutive. reflexivity.
Qed.

Lemma contains_ok_live_lines (ls : list str) :
  existsb (contains (lit "OK")) (live_lines ls)
  = existsb (contains (lit "OK")) ls.
Proof.
  unfold live_lines. induction ls as [|l ls IH]; [reflexivity|].
  cbn [List.filter existsb].
  assert (contains (lit "OK") (rstrip l) = contains (lit "OK") l) as Hl.
  { destruct (rstrip_spaces l) as (ws & E & Hws).
    rewrite E at 2. symmetry.
    apply (contains2_app_spaces 79 75); [reflexivity | reflexivity | exact Hws]. }
  destruct l as [|c l]; [exact IH|].
  cbn [nonempty fmap list_fmap existsb]. cbn [fmap] in IH.
  rewrite IH, Hl. reflexivity.
Qed.

(** X14.  [ensure_pswindowsupdate_installed] answers [True] exactly when
    the process ends with the code 0 (or leaves none) and some line of its
    output holds the two letters [OK], wherever in the line and whatever
    else is printed. *)
Theorem X14_module_ready_iff_ok_in_output ps p :
  ensure_pswindowsupdate_installed ps (Started p)
  = match returncode p with Some z => (z =? 0)%Z | None => true end
    && existsb (contains (lit "OK")) (stdout_lines p).
Proof.
  unfold ensure_pswindowsupdate_installed, run_with_live_output.
  destruct (live_loop_spec (lit "Preparing PSWindowsUpdate") 40 p)
    as (_ & -> & _).
  rewrite (contains2_join 79 75), contains_ok_live_lines by discriminate.
  f_equal. unfold returncode_or_0.
  destruct (returncode p) as [z|]; [|reflexivity].
  destruct (z =? 0)%Z eqn:E; [reflexivity | exact E].
Qed.
